(** * Reward shaping and episode termination of the velocity-tracking
      tetrapod environment

    A shallow embedding of
    [SoftActorCritic_PyTorch/EnvironmentTetrapodVelocidad.py].

    The Python class computes with NumPy floating-point arrays.  The
    embedding is written once, over an interface [np.Arith] of the
    arithmetic the file uses, and read at two instances:

    - [float_arith]: IEEE-754 binary64 (Rocq's primitive floats), the
      arithmetic the program really runs on; it evaluates;
    - [real_arith]: the real numbers, the arithmetic the shaping curves
      are designed in; the analytic properties are proved there.

    Properties that only depend on the control structure of the code are
    proved for every instance of the interface. *)

From Stdlib Require Import ZArith QArith Reals Lra Floats String.
From stdpp Require Import base option list.

(** ** NumPy arithmetic *)

Module np.

(** Scalars: literals, the arithmetic operators, [np.abs], [np.sqrt],
    [np.pi] and the two comparisons the file uses. *)
Class Arith (T : Type) : Type := {
  lit : Q → T;
  add : T → T → T;
  sub : T → T → T;
  mul : T → T → T;
  div : T → T → T;
  neg : T → T;
  abs : T → T;
  sqrt : T → T;
  pi : T;
  lt : T → T → bool;
  ge : T → T → bool
}.

#[global] Arguments lit {T _} _%_Q.

(** A two-dimensional array: its second dimension and its rows.  The
    first dimension is the number of rows. *)
Record ndarray (T : Type) : Type := NdArray {
  ncols : nat;
  rows : list (list T)
}.
#[global] Arguments NdArray {T} _ _.
#[global] Arguments ncols {T} _.
#[global] Arguments rows {T} _.

Section Arrays.
Context {T : Type} `{Arith T}.

(** [a.shape[0]] *)
Definition shape0 (a : ndarray T) : nat := length (rows a).

(** Every row has the width the array declares. *)
Definition rectangular (a : ndarray T) : Prop :=
  Forall (λ r, length r = ncols a) (rows a).

(** [v.reshape(1,-1)] of a one-dimensional [v] *)
Definition reshape_row (v : list T) : ndarray T :=
  NdArray (length v) [v].

(** [a[:,k]]: raises (here [None]) when [k] is not a column. *)
Definition column (k : nat) (a : ndarray T) : option (list T) :=
  if decide (k < ncols a) then mapM (λ r, r !! k) (rows a) else None.

(** [a[i,j]] *)
Definition item (a : ndarray T) (i j : nat) : option T :=
  r ← rows a !! i; r !! j.

(** [a[0:-1]] and [a[1:]] along the first dimension *)
Definition drop_last (a : ndarray T) : ndarray T :=
  NdArray (ncols a) (take (length (rows a) - 1) (rows a)).
Definition drop_first (a : ndarray T) : ndarray T :=
  NdArray (ncols a) (drop 1 (rows a)).

(** [np.zeros(n)] *)
Definition zeros (n : nat) : list T := replicate n (lit 0).

Definition square (x : T) : T := mul x x.

(** [np.sum] of one row *)
Definition sum (l : list T) : T := foldl add (lit 0) l.

(** [np.sqrt(np.sum(np.square(a[:,0:p]), axis=1, keepdims=True))]:
    one norm per row. *)
Definition row_norms (p : nat) (a : ndarray T) : list T :=
  (λ r, sqrt (sum (square <$> take p r))) <$> rows a.
End Arrays.

End np.

Declare Scope np_scope.
Delimit Scope np_scope with np.
Infix "+" := np.add : np_scope.
Infix "-" := np.sub : np_scope.
Infix "*" := np.mul : np_scope.
Infix "/" := np.div : np_scope.
Notation "- x" := (np.neg x) : np_scope.
Infix "<?" := np.lt : np_scope.
Infix ">=?" := np.ge : np_scope.

(** ** The two arithmetics *)

Definition Rltb (x y : R) : bool := if Rlt_dec x y then true else false.
Definition Rgeb (x y : R) : bool := if Rge_dec x y then true else false.

#[export] Instance real_arith : np.Arith R := {|
  np.lit q := (IZR (Qnum q) / IZR (Zpos (Qden q)))%R;
  np.add := Rplus;
  np.sub := Rminus;
  np.mul := Rmult;
  np.div := Rdiv;
  np.neg := Ropp;
  np.abs := Rabs;
  np.sqrt := R_sqrt.sqrt;
  np.pi := PI;
  np.lt := Rltb;
  np.ge := Rgeb
|}.

(** A (small) integer as a binary64 number. *)
Definition float_of_Z (z : Z) : float :=
  match z with
  | Z0 => PrimFloat.of_uint63 (Uint63.of_Z 0)
  | Zpos _ => PrimFloat.of_uint63 (Uint63.of_Z z)
  | Zneg p => PrimFloat.opp (PrimFloat.of_uint63 (Uint63.of_Z (Zpos p)))
  end.

(** A decimal literal denotes the binary64 number nearest to it, which
    is what the correctly rounded quotient of its numerator and
    denominator is.  [np.pi] is the double [0x1.921fb54442d18p+1]. *)
#[export] Instance float_arith : np.Arith float := {|
  np.lit q := PrimFloat.div (float_of_Z (Qnum q)) (float_of_Z (Zpos (Qden q)));
  np.add := PrimFloat.add;
  np.sub := PrimFloat.sub;
  np.mul := PrimFloat.mul;
  np.div := PrimFloat.div;
  np.neg := PrimFloat.opp;
  np.abs := PrimFloat.abs;
  np.sqrt := PrimFloat.sqrt;
  np.pi := 0x1.921fb54442d18p+1%float;
  np.lt := PrimFloat.ltb;
  np.ge x y := PrimFloat.leb y x
|}.

(** ** Loops *)

(** [for x in xs: s = body(x, s)], where the body may raise. *)
Fixpoint for_each {A S : Type} (body : A → S → option S) (xs : list A) (s : S)
  : option S :=
  match xs with
  | [] => Some s
  | x :: xs => s' ← body x s; for_each body xs s'
  end.

(** [range(a, b)] *)
Definition range (a b : nat) : list nat := seq a (b - a).

(** ** The simulator *)

(** [CoppeliaSocket] is the connection to the simulator, imported from a
    module of its own.  The environment only constructs it and calls
    [reset] and [act] on it, each of which returns an observation and
    leaves the socket in a new state. *)
Class CoppeliaSocket (T : Type) : Type := {
  socket : Type;
  connect : nat → socket;
  socket_reset : socket → list T → socket * list T;
  socket_act : socket → list T → socket * list T
}.

(** ** The environment *)

Section Environment.
Context {T : Type} {NA : np.Arith T} {CS : CoppeliaSocket T}.
Local Open Scope np_scope.

(** The attributes of an [Environment] object.  The simulator returns
    one-dimensional observations.  The array [__obs] is kept as its
    shape, [obs_shape], and its entries in row-major order, [obs];
    [__step] does not exist until [reset] sets it. *)
Record Environment : Type := {
  name : string;
  obs_sp_shape : list nat;
  act_sp_shape : list nat;
  dest_pos : list T;
  pos_idx : list nat;
  pos_size : nat;
  end_cond : T;
  obs : list T;
  obs_shape : list nat;
  coppelia : socket;
  target_velocity : T;
  vmax : T;
  delta_vel : T;
  vmin : T;
  curvature_forward : T;
  vmin_lat : T;
  curvature_lateral : T;
  vmin_back : T;
  curvature_back : T;
  flipping_penalization : T;
  step : option Z
}.

(** [__init__]; [obs_sp_shape[0]] raises on an empty shape. *)
Definition init (obs_sp_shape act_sp_shape : list nat) (dest_pos : list T)
  : option Environment :=
  n ← obs_sp_shape !! 0%nat;
  let vmax := np.lit 1 in
  let delta_vel := np.lit 0.3 in
  let vmin := np.lit (-2) in
  Some {|
    name := "ComplexAgentSAC";
    obs_sp_shape := obs_sp_shape;
    act_sp_shape := act_sp_shape;
    dest_pos := dest_pos;
    pos_idx := range 0 (length dest_pos);
    pos_size := length dest_pos;
    end_cond := np.lit 2.5;
    obs := np.zeros (1 * foldr Nat.mul 1%nat obs_sp_shape);
    obs_shape := 1%nat :: obs_sp_shape;
    coppelia := connect n;
    target_velocity := np.lit 0.3;
    vmax := vmax;
    delta_vel := delta_vel;
    vmin := vmin;
    curvature_forward := np.lit (-2) * vmax / (delta_vel * vmin);
    vmin_lat := np.lit (-1);
    curvature_lateral := np.lit 3;
    vmin_back := np.lit (-0.8);
    curvature_back := np.lit 2;
    flipping_penalization := np.lit (-2);
    step := None
  |}.

(** Assignments to [self.__step], [self.__obs] (entries [o] in the shape
    [sh]) and the socket. *)
Definition set_episode (e : Environment) (st : option Z) (sh : list nat)
    (o : list T) (c : socket) : Environment :=
  {| name := name e; obs_sp_shape := obs_sp_shape e;
     act_sp_shape := act_sp_shape e; dest_pos := dest_pos e;
     pos_idx := pos_idx e; pos_size := pos_size e; end_cond := end_cond e;
     obs := o; obs_shape := sh; coppelia := c;
     target_velocity := target_velocity e; vmax := vmax e;
     delta_vel := delta_vel e; vmin := vmin e;
     curvature_forward := curvature_forward e; vmin_lat := vmin_lat e;
     curvature_lateral := curvature_lateral e; vmin_back := vmin_back e;
     curvature_back := curvature_back e;
     flipping_penalization := flipping_penalization e;
     step := st |}.

(** *** The shaping terms *)

(** Line 106. *)
Definition forward_velocity_penalty (self : Environment) (v : T) : T :=
  (vmax self - vmin self)
  / (curvature_forward self * np.abs (target_velocity self - v) + np.lit 1)
  + vmin self.

(** Line 114. *)
Definition lateral_velocity_penalty (self : Environment) (v : T) : T :=
  - vmin_lat self / (curvature_lateral self * np.abs v + np.lit 1)
  + vmin_lat self.

(** Lines 135 and 140, for the normalised angle [x = next_obs[i, j]]. *)
Definition flat_back_reward (self : Environment) (x : T) : T :=
  let back_angle := np.abs x * np.pi in
  - vmin_back self / (curvature_back self * back_angle + np.lit 1)
  + vmin_back self.

(** *** [__compute_reward_and_end] *)

(** The body of [for j in range(5, 7)], acting on the reward array. *)
Definition flat_back_body (self : Environment) (next_obs : np.ndarray T)
    (base_reward : T) (i j : nat) (reward : list T) : option (list T) :=
  x ← np.item next_obs i j;
  let flat_back_reward := flat_back_reward self x in
  let reward :=
    if base_reward <? np.lit 0
    then alter (λ r, r - flat_back_reward * base_reward * np.lit 0.5) i reward
    else alter (λ r, r + flat_back_reward * base_reward * np.lit 0.5) i reward
  in
  Some (alter (λ r, r + flat_back_reward) i reward).

(** The [if]/[elif]/[else] of lines 156 to 164.  [end] is an array of
    zeros that receives [True] and [False]; it is kept as booleans. *)
Definition flip_or_leave (self : Environment) (next_obs : np.ndarray T)
    (dist_fin : list T) (i : nat) (st : list T * list bool)
  : option (list T * list bool) :=
  let '(reward, end_) := st in
  roll ← np.item next_obs i 5;
  flipped ←
    (if np.abs roll >=? np.lit 0.278 then Some true
     else pitch ← np.item next_obs i 6;
          Some (np.abs pitch >=? np.lit 0.278));
  if flipped : bool
  then Some (alter (λ r, r + flipping_penalization self) i reward,
             <[i := true]> end_)
  else
    d ← dist_fin !! i;
    if d >=? end_cond self
    then Some (reward, <[i := true]> end_)
    else Some (reward, <[i := false]> end_).

(** The body of [for i in range(obs.shape[0])]. *)
Definition transition_body (self : Environment) (next_obs : np.ndarray T)
    (dist_fin forward_velocity lateral_velocity : list T)
    (i : nat) (st : list T * list bool) : option (list T * list bool) :=
  let '(reward, end_) := st in
  v ← forward_velocity !! i;
  let base_reward := forward_velocity_penalty self v in
  w ← lateral_velocity !! i;
  let base_reward := base_reward + lateral_velocity_penalty self w in
  reward ← for_each (flat_back_body self next_obs base_reward i)
                    (range 5 7) reward;
  flip_or_leave self next_obs dist_fin i (reward, end_).

Definition compute_reward_and_end (self : Environment)
    (obs next_obs : np.ndarray T) : option (list T * list bool) :=
  let dist_fin := np.row_norms (pos_size self) next_obs in
  forward_velocity ← np.column 7 next_obs;
  lateral_velocity ← np.column 8 next_obs;
  let reward := np.zeros (np.shape0 obs) in
  let end_ := replicate (np.shape0 obs) false in
  for_each
    (transition_body self next_obs dist_fin forward_velocity lateral_velocity)
    (range 0 (np.shape0 obs)) (reward, end_).

(** *** The public methods *)

(** [compute_reward] *)
Definition compute_reward (self : Environment) (obs : np.ndarray T)
  : option (list T) :=
  fst <$> compute_reward_and_end self (np.drop_last obs) (np.drop_first obs).

(** [max_ret]: a 1-by-1 array, given by its entries. *)
Definition max_ret (self : Environment) (obs : list T) : list T :=
  (λ d, np.lit 100 * d) <$> np.row_norms (pos_size self) (np.reshape_row obs).

(** [self.__obs[:] = next_obs] for a one-dimensional [next_obs]: the
    values are broadcast into the array [__obs], whose shape stays.  That
    needs [next_obs] to be as long as the last dimension, in which case
    it is copied once per index of the leading dimensions, or to hold a
    single value, which then fills the array; anything else raises, and
    so does an array without dimensions.  The result is the new entries
    of [__obs]. *)
Definition assign_obs (shape : list nat) (new : list T) : option (list T) :=
  match last shape with
  | None => None
  | Some w =>
      let leading := foldr Nat.mul 1%nat (removelast shape) in
      if decide (length new = w)
      then Some (mjoin (replicate leading new))
      else match new with
           | [x] => Some (replicate (leading * w) x)
           | _ => None
           end
  end.

(** [act]: the environment after the call and the triple it returns. *)
Definition act (self : Environment) (action : list T)
  : option (Environment * (list T * list T * list bool)) :=
  let '(c, next_obs) := socket_act (coppelia self) action in
  '(reward, end_) ← compute_reward_and_end self
                      (np.reshape_row (obs self)) (np.reshape_row next_obs);
  o ← assign_obs (obs_shape self) next_obs;
  Some (set_episode self (step self) (obs_shape self) o c,
        (next_obs, reward, end_)).

(** [reset]; [u] is the number [np.random.rand(1)] draws from [0, 1).
    [__obs] becomes the array the simulator returns. *)
Definition reset (self : Environment) (u : T) : Environment * list T :=
  let pos := np.zeros 2 in
  let z_ang := np.lit 2 * u - np.lit 1 in
  let pos_angle := pos ++ [z_ang] in
  let '(c, o) := socket_reset (coppelia self) pos_angle in
  (set_episode self (Some 0%Z) [length o] o c, o).

(** [set_pos]: the simulator is reset to the given pose ([pos.reshape(-1)]
    of a pose given flat) and its observation becomes the last one. *)
Definition set_pos (self : Environment) (pos : list T) : Environment * list T :=
  let '(c, o) := socket_reset (coppelia self) pos in
  (set_episode self (step self) [length o] o c, o).

End Environment.

(** ** One transition at a time *)

(** What the body of the loop over the transitions computes for one row
    of [next_obs], as a function of the row alone. *)
Section Transition.
Context {T : Type} {NA : np.Arith T} {CS : CoppeliaSocket T}.
Local Open Scope np_scope.

(** One pass of the [for j] loop on the reward [r] of the row. *)
Definition flat_back_update (self : Environment) (base_reward x r : T) : T :=
  let f := flat_back_reward self x in
  (if base_reward <? np.lit 0
   then r - f * base_reward * np.lit 0.5
   else r + f * base_reward * np.lit 0.5) + f.

(** The reward of the row when both passes are done, from [r0]. *)
Definition shaped_reward (self : Environment) (v w roll pitch r0 : T) : T :=
  let base_reward :=
    forward_velocity_penalty self v + lateral_velocity_penalty self w in
  flat_back_update self base_reward pitch
    (flat_back_update self base_reward roll r0).

(** The condition of the [if] on line 156. *)
Definition flipped (roll pitch : T) : bool :=
  if np.abs roll >=? np.lit 0.278 then true
  else np.abs pitch >=? np.lit 0.278.

(** The entry of [dist_fin] for a row. *)
Definition position_norm (p : nat) (row : list T) : T :=
  np.sqrt (np.sum (np.square <$> take p row)).

Definition transition (self : Environment) (row : list T) (r0 : T)
  : option (T * bool) :=
  v ← row !! 7%nat;
  w ← row !! 8%nat;
  roll ← row !! 5%nat;
  pitch ← row !! 6%nat;
  let r := shaped_reward self v w roll pitch r0 in
  if flipped roll pitch
  then Some (r + flipping_penalization self, true)
  else Some (r, position_norm (pos_size self) row >=? end_cond self).

End Transition.

(** ** The destination *)

Section DestinationDefinitions.
Context {T : Type} {NA : np.Arith T} {CS : CoppeliaSocket T}.
Local Open Scope np_scope.

(** Two environments that differ at most in the destination they were
    given (its length apart). *)
Definition same_but_destination (e1 e2 : Environment) : Prop :=
  pos_size e1 = pos_size e2 ∧ end_cond e1 = end_cond e2 ∧
  obs e1 = obs e2 ∧ coppelia e1 = coppelia e2 ∧
  target_velocity e1 = target_velocity e2 ∧ vmax e1 = vmax e2 ∧
  delta_vel e1 = delta_vel e2 ∧ vmin e1 = vmin e2 ∧
  curvature_forward e1 = curvature_forward e2 ∧
  vmin_lat e1 = vmin_lat e2 ∧ curvature_lateral e1 = curvature_lateral e2 ∧
  vmin_back e1 = vmin_back e2 ∧ curvature_back e1 = curvature_back e2 ∧
  flipping_penalization e1 = flipping_penalization e2 ∧ step e1 = step e2 ∧
  obs_shape e1 = obs_shape e2.

(** The distance from the position of an observation to the destination,
    and a hundred times it: what [max_ret] is described to return. *)
Definition distance_to_destination (self : Environment) (o : list T) : T :=
  np.sqrt (np.sum (np.square
                     <$> zip_with np.sub (take (pos_size self) o)
                                         (dest_pos self))).

Definition max_ret_to_destination (self : Environment) (o : list T) : list T :=
  [np.lit 100 * distance_to_destination self o].

End DestinationDefinitions.

(** ** The configuration *)

Section Configuration.
Context {T : Type} {NA : np.Arith T} {CS : CoppeliaSocket T}.

(** Two environments with the same construction parameters and the same
    constants: everything but the last observation, the socket and the
    step counter. *)
Definition same_configuration (e1 e2 : Environment) : Prop :=
  name e1 = name e2 ∧ obs_sp_shape e1 = obs_sp_shape e2 ∧
  act_sp_shape e1 = act_sp_shape e2 ∧ dest_pos e1 = dest_pos e2 ∧
  pos_idx e1 = pos_idx e2 ∧ pos_size e1 = pos_size e2 ∧
  end_cond e1 = end_cond e2 ∧
  target_velocity e1 = target_velocity e2 ∧ vmax e1 = vmax e2 ∧
  delta_vel e1 = delta_vel e2 ∧ vmin e1 = vmin e2 ∧
  curvature_forward e1 = curvature_forward e2 ∧
  vmin_lat e1 = vmin_lat e2 ∧ curvature_lateral e1 = curvature_lateral e2 ∧
  vmin_back e1 = vmin_back e2 ∧ curvature_back e1 = curvature_back e2 ∧
  flipping_penalization e1 = flipping_penalization e2.

(** [a[0:k]] along the first dimension: the first [k] observations of a
    trajectory. *)
Definition first_rows (k : nat) (a : np.ndarray T) : np.ndarray T :=
  np.NdArray (np.ncols a) (take k (np.rows a)).

End Configuration.

(** ** The curve of the shaping terms *)

(** The three terms share one curve over the reals,
    [A / (c * d + 1) + m] for a deviation [d >= 0]. *)
Definition saturating (A c m d : R) : R := (A / (c * d + 1) + m)%R.

(** ** A simulator to run the environment against *)

(** The echo simulator answers every call with its argument, cut or
    padded with zeros to the observation length it was connected with. *)
Definition echo_socket {T : Type} `{np.Arith T} : CoppeliaSocket T := {|
  socket := nat;
  connect n := n;
  socket_reset n pose := (n, take n (pose ++ np.zeros n));
  socket_act n action := (n, take n (action ++ np.zeros n))
|}.

(** ** Runs on binary64 numbers, against the echo simulator *)

Definition f64 (q : Q) : float := np.lit q.

Module Demo.

(** An environment with a two-dimensional destination. *)
Definition env : option (@Environment float echo_socket) :=
  init [9%nat] [12%nat] (f64 <$> [1; 0]%Q).

(** At rest at the origin, at the target velocity. *)
Definition cruising : list float := f64 <$> [0; 0; 0.5; 0; 0; 0; 0; 0.3; 0]%Q.
(** Tilted beyond the limit and far from the origin. *)
Definition tumbling : list float :=
  f64 <$> [3; 0; 0.5; 0; 0; 0.1; -0.3; 0.1; 0.2]%Q.
(** Far from the origin, the back within the limit. *)
Definition straying : list float :=
  f64 <$> [3; 0; 0.5; 0; 0; 0.1; -0.2; 0.1; 0.2]%Q.

Definition trajectory : np.ndarray float :=
  np.NdArray 9 [cruising; tumbling; straying; cruising].

(** The environment [env] constructs, and what it computes for the three
    transitions of the trajectory. *)
Definition self : @Environment float echo_socket :=
  is_Some_proj (ex_intro _ _ eq_refl : is_Some env).

Definition outcome : list float * list bool :=
  default ([], [])
    (compute_reward_and_end self (np.drop_last trajectory)
                            (np.drop_first trajectory)).

End Demo.

Module Demo2.

(** The environment of [Demo] with another destination. *)
Definition self : @Environment float echo_socket :=
  is_Some_proj (ex_intro _ _ eq_refl
                : is_Some (init [9%nat] [12%nat] (f64 <$> [-4; 7]%Q))).

(** An observation whose position is the destination of [Demo]. *)
Definition arrived : list float := f64 <$> [1; 0; 0.5; 0; 0; 0; 0; 0.3; 0]%Q.

End Demo2.

Module Episode.

(** A fresh episode of the demonstration environment, and one step in
    it. *)
Definition started : @Environment float echo_socket :=
  (reset Demo.self (f64 0.25)).1.

Definition stepped
  : @Environment float echo_socket * (list float * list float * list bool) :=
  default (started, ([], [], [])) (act started Demo.tumbling).

End Episode.

Module RealDemo.

(** The demonstration environment and its cruising observation, over the
    reals. *)
Definition self : @Environment R echo_socket :=
  is_Some_proj (ex_intro _ _ eq_refl
                : is_Some (init [9%nat] [12%nat] [1%R; 0%R])).

Definition cruising : list R :=
  [0; 0; np.lit 0.5; 0; 0; 0; 0; np.lit 0.3; 0]%R.

End RealDemo.

Module Blind.

(** The cruising observation with the roll and the pitch not a number,
    and what the demonstration environment computes for it. *)
Definition row : list float :=
  <[5%nat := PrimFloat.nan]> (<[6%nat := PrimFloat.nan]> Demo.cruising).

Definition outcome : list float * list bool :=
  default ([], [])
    (compute_reward_and_end Demo.self (np.reshape_row Demo.cruising)
                            (np.reshape_row row)).

End Blind.

Module RealRuns.

(** An observation of a leaning robot over the reals, and the same
    observation seen in a mirror: position, roll, pitch and lateral
    velocity change sign. *)
Definition leaning : list R :=
  [1; -2; 1 / 2; 0; 0; 1 / 10; - (1 / 5); 3 / 10; 2 / 5]%R.

Definition mirrored : list R :=
  [-1; 2; 1 / 2; 0; 0; - (1 / 10); 1 / 5; 3 / 10; - (2 / 5)]%R.


End RealRuns.

(** Reading the interface at the reals. *)
Ltac reals :=
  cbv [np.lit np.add np.sub np.mul np.div np.neg np.abs np.sqrt np.pi np.lt
       np.ge real_arith Qnum Qden] in *.

(** * Properties *)

(** ** The loop over the transitions *)

Section Rows.
Context {T : Type} {NA : np.Arith T} {CS : CoppeliaSocket T}.
Local Open Scope np_scope.

Lemma alter_lookup_insert {A : Type} (f : A → A) (l : list A) (i : nat) (x : A) :
  l !! i = Some x → alter f i l = <[i := f x]> l.
Proof.
  revert i. induction l as [|y l IH]; intros [|i] Hi; simplify_eq/=; try done.
  f_equal. by apply IH.
Qed.

Lemma insert_insert_same {A : Type} (l : list A) (i : nat) (x y : A) :
  <[i := y]> (<[i := x]> l) = <[i := y]> l.
Proof.
  revert i. induction l as [|z l IH]; intros [|i]; simpl; try done.
  f_equal. apply IH.
Qed.

Lemma column_lookup (k : nat) (a : np.ndarray T) (c : list T) (i : nat) :
  np.column k a = Some c → c !! i = (np.rows a !! i) ≫= (λ r, r !! k).
Proof.
  unfold np.column. case_decide; [|done]. intros Hc%mapM_Some_1.
  destruct (np.rows a !! i) as [r|] eqn:Hr; simpl.
  - destruct (Forall2_lookup_l _ _ _ _ _ Hc Hr) as (y & Hy & Hry). congruence.
  - apply lookup_ge_None. rewrite <- (Forall2_length _ _ _ Hc).
    by apply lookup_ge_None.
Qed.

Lemma row_norms_lookup (p : nat) (a : np.ndarray T) (i : nat) :
  np.row_norms p a !! i = position_norm p <$> np.rows a !! i.
Proof. unfold np.row_norms. by rewrite list_lookup_fmap. Qed.

Lemma lookup_Some_below {A : Type} (l : list A) (i j : nat) (x : A) :
  l !! j = Some x → i ≤ j → is_Some (l !! i).
Proof.
  intros Hj Hij. apply lookup_lt_is_Some. apply lookup_lt_Some in Hj. lia.
Qed.

(** The loop body stores, at index [i], what [transition] computes from
    row [i] of [next_obs], and touches nothing else. *)
Lemma transition_body_row (self : Environment) (next_obs : np.ndarray T)
    (fv lv : list T) (i : nat) (reward : list T) (end_ : list bool) (r0 : T) :
  np.column 7 next_obs = Some fv →
  np.column 8 next_obs = Some lv →
  reward !! i = Some r0 →
  transition_body self next_obs (np.row_norms (pos_size self) next_obs)
                  fv lv i (reward, end_)
  = row ← np.rows next_obs !! i;
    '(r, e) ← transition self row r0;
    Some (<[i := r]> reward, <[i := e]> end_).
Proof.
  intros Hfv Hlv Hr0. unfold transition_body, transition.
  rewrite (column_lookup _ _ _ i Hfv), (column_lookup _ _ _ i Hlv).
  destruct (np.rows next_obs !! i) as [row|] eqn:Hrow; simpl; [|done].
  destruct (row !! 7%nat) as [v|] eqn:Hv; simpl; [|done].
  destruct (row !! 8%nat) as [w|] eqn:Hw; simpl; [|done].
  destruct (lookup_Some_below row 5 8 w Hw ltac:(lia)) as [roll Hroll].
  destruct (lookup_Some_below row 6 8 w Hw ltac:(lia)) as [pitch Hpitch].
  rewrite Hroll, Hpitch. simpl.
  unfold flat_back_body, flip_or_leave, np.item. rewrite Hrow. simpl.
  rewrite Hroll, Hpitch. simpl.
  rewrite row_norms_lookup, Hrow. simpl.
  set (base := forward_velocity_penalty self v + lateral_velocity_penalty self w).
  assert (Hshape : ∀ x r (l : list T), l !! i = Some r →
    alter (λ r, r + flat_back_reward self x) i
      (if base <? np.lit 0
       then alter (λ r, r - flat_back_reward self x * base * np.lit 0.5) i l
       else alter (λ r, r + flat_back_reward self x * base * np.lit 0.5) i l)
    = <[i := flat_back_update self base x r]> l).
  { intros x r l Hl. unfold flat_back_update. simpl.
    destruct (base <? np.lit 0);
      rewrite (alter_lookup_insert _ l i r Hl);
      (erewrite alter_lookup_insert;
        [|apply list_lookup_insert_eq; by eapply lookup_lt_Some]);
      by rewrite insert_insert_same. }
  assert (Hin : i < length reward) by by eapply lookup_lt_Some.
  rewrite (Hshape roll r0 reward Hr0).
  rewrite (Hshape pitch (flat_back_update self base roll r0)
             (<[i := flat_back_update self base roll r0]> reward)
             (list_lookup_insert_eq _ _ _ Hin)).
  rewrite insert_insert_same.
  fold (shaped_reward self v w roll pitch r0).
  unfold flipped.
  destruct (np.abs roll >=? np.lit 0.278); simpl.
  - erewrite alter_lookup_insert;
      [|apply list_lookup_insert_eq; exact Hin].
    by rewrite insert_insert_same.
  - destruct (np.abs pitch >=? np.lit 0.278); simpl.
    + erewrite alter_lookup_insert;
        [|apply list_lookup_insert_eq; exact Hin].
      by rewrite insert_insert_same.
    + by destruct (position_norm (pos_size self) row >=? end_cond self).
Qed.

Lemma transition_is_Some (self : Environment) (row : list T) (r0 : T) :
  9 ≤ length row → is_Some (transition self row r0).
Proof.
  intros Hlen. unfold transition.
  destruct (lookup_lt_is_Some_2 row 7 ltac:(lia)) as [v ->].
  destruct (lookup_lt_is_Some_2 row 8 ltac:(lia)) as [w ->].
  destruct (lookup_lt_is_Some_2 row 5 ltac:(lia)) as [roll ->].
  destruct (lookup_lt_is_Some_2 row 6 ltac:(lia)) as [pitch ->].
  simpl. destruct (flipped roll pitch); eauto.
Qed.

Lemma transition_length (self : Environment) (row : list T) (r0 : T) :
  is_Some (transition self row r0) → 9 ≤ length row.
Proof.
  unfold transition. intros [re Hre].
  destruct (row !! 7%nat) eqn:?; simplify_eq/=.
  destruct (row !! 8%nat) eqn:Hw; simplify_eq/=.
  apply lookup_lt_Some in Hw. lia.
Qed.

Section Loop.
Variables (self : Environment) (next_obs : np.ndarray T) (fv lv : list T).
Hypothesis Hfv : np.column 7 next_obs = Some fv.
Hypothesis Hlv : np.column 8 next_obs = Some lv.

Local Abbreviation body :=
  (transition_body self next_obs (np.row_norms (pos_size self) next_obs) fv lv).

(** Running the loop over the indices [k, k+m): the lengths stay, the
    entries outside the range stay, and the entries inside hold what
    [transition] computes for their rows. *)
Lemma for_each_transition_Some (m k : nat) (reward reward' : list T)
    (end_ end_' : list bool) :
  k + m ≤ length reward → k + m ≤ length end_ →
  for_each body (seq k m) (reward, end_) = Some (reward', end_') →
  length reward' = length reward ∧ length end_' = length end_ ∧
  (∀ i, ¬ (k ≤ i < k + m) →
        reward' !! i = reward !! i ∧ end_' !! i = end_ !! i) ∧
  (∀ i, k ≤ i < k + m →
        ∃ row r0 r e, np.rows next_obs !! i = Some row ∧
                      reward !! i = Some r0 ∧
                      transition self row r0 = Some (r, e) ∧
                      reward' !! i = Some r ∧ end_' !! i = Some e).
Proof.
  revert k reward end_.
  induction m as [|m IH]; intros k reward end_ Hr He Hrun;
    cbn [for_each seq mbind option_bind] in Hrun.
  - simplify_eq. split_and!; try done. intros i Hi. lia.
  - destruct (lookup_lt_is_Some_2 reward k ltac:(lia)) as [r0 Hr0].
    rewrite (transition_body_row self next_obs fv lv k reward end_ r0 Hfv Hlv Hr0)
      in Hrun.
    destruct (np.rows next_obs !! k) as [row|] eqn:Hrow; simpl in Hrun; [|done].
    destruct (transition self row r0) as [[r e]|] eqn:Htr; simpl in Hrun; [|done].
    apply IH in Hrun; rewrite ?length_insert; try lia.
    rewrite !length_insert in Hrun.
    destruct Hrun as (Hlr & Hle & Hout & Hin).
    split_and!; [done|done| |].
    + intros i Hi. destruct (Hout i ltac:(lia)) as [-> ->].
      rewrite !list_lookup_insert_ne by lia. done.
    + intros i Hi. destruct (decide (i = k)) as [->|Hne].
      * exists row, r0, r, e.
        destruct (Hout k ltac:(lia)) as [-> ->].
        rewrite !list_lookup_insert_eq by lia. done.
      * destruct (Hin i ltac:(lia)) as (row' & r0' & r' & e' & ? & Hl & ? & ? & ?).
        rewrite list_lookup_insert_ne in Hl by lia.
        exists row', r0', r', e'. done.
Qed.

(** The loop runs to its end when every row it visits is there and has
    the nine columns the body reads. *)
Lemma for_each_transition_total (m k : nat) (reward : list T) (end_ : list bool) :
  k + m ≤ length reward →
  (∀ i, k ≤ i < k + m →
        ∃ row, np.rows next_obs !! i = Some row ∧ 9 ≤ length row) →
  is_Some (for_each body (seq k m) (reward, end_)).
Proof.
  revert k reward end_.
  induction m as [|m IH]; intros k reward end_ Hr Hrows;
    cbn [for_each seq]; [eauto|].
  destruct (lookup_lt_is_Some_2 reward k ltac:(lia)) as [r0 Hr0].
  rewrite (transition_body_row self next_obs fv lv k reward end_ r0 Hfv Hlv Hr0).
  destruct (Hrows k ltac:(lia)) as (row & -> & Hlen). simpl.
  destruct (transition_is_Some self row r0 Hlen) as [[r e] ->]. simpl.
  apply IH.
  - rewrite length_insert. lia.
  - intros i Hi. apply Hrows. lia.
Qed.

End Loop.

(** The columns exist when the array is nine wide and rectangular. *)
Lemma column_is_Some (k : nat) (a : np.ndarray T) :
  np.rectangular a → k < np.ncols a → is_Some (np.column k a).
Proof.
  intros Hrect Hk. unfold np.column. rewrite decide_True by done.
  apply mapM_is_Some. eapply Forall_impl; [exact Hrect|].
  intros r Hr. simpl. apply lookup_lt_is_Some. rewrite Hr. exact Hk.
Qed.

(** *** What [__compute_reward_and_end] returns *)

Lemma compute_reward_and_end_Some (self : Environment) (obs next_obs : np.ndarray T)
    (reward : list T) (end_ : list bool) :
  compute_reward_and_end self obs next_obs = Some (reward, end_) →
  length reward = np.shape0 obs ∧ length end_ = np.shape0 obs ∧
  ∀ i, i < np.shape0 obs →
       ∃ row r e, np.rows next_obs !! i = Some row ∧
                  transition self row (np.lit 0) = Some (r, e) ∧
                  reward !! i = Some r ∧ end_ !! i = Some e.
Proof.
  unfold compute_reward_and_end. intros Hrun.
  destruct (np.column 7 next_obs) as [fv|] eqn:Hfv; simpl in Hrun; [|done].
  destruct (np.column 8 next_obs) as [lv|] eqn:Hlv; simpl in Hrun; [|done].
  unfold range in Hrun. rewrite Nat.sub_0_r in Hrun.
  apply (for_each_transition_Some self next_obs fv lv Hfv Hlv) in Hrun;
    unfold np.zeros; rewrite ?length_replicate; try lia.
  unfold np.zeros in Hrun. rewrite !length_replicate in Hrun.
  destruct Hrun as (Hlr & Hle & _ & Hin).
  split_and!; [done|done|].
  intros i Hi. destruct (Hin i ltac:(lia)) as (row & r0 & r & e & ? & Hl & ? & ? & ?).
  rewrite lookup_replicate_2 in Hl by lia. simplify_eq.
  exists row, r, e. done.
Qed.

Lemma compute_reward_and_end_total (self : Environment) (obs next_obs : np.ndarray T) :
  np.rectangular next_obs → 9 ≤ np.ncols next_obs →
  np.shape0 obs ≤ np.shape0 next_obs →
  is_Some (compute_reward_and_end self obs next_obs).
Proof.
  intros Hrect Hw Hn. unfold compute_reward_and_end.
  destruct (column_is_Some 7 next_obs Hrect ltac:(lia)) as [fv Hfv].
  destruct (column_is_Some 8 next_obs Hrect ltac:(lia)) as [lv Hlv].
  rewrite Hfv, Hlv. simpl. unfold range. rewrite Nat.sub_0_r.
  apply (for_each_transition_total self next_obs fv lv Hfv Hlv).
  - unfold np.zeros. rewrite length_replicate. lia.
  - intros i Hi. unfold np.shape0 in *.
    destruct (lookup_lt_is_Some_2 (np.rows next_obs) i ltac:(lia)) as [row Hrow].
    exists row. split; [done|].
    unfold np.rectangular in Hrect.
    rewrite Forall_lookup in Hrect. rewrite (Hrect _ _ Hrow). done.
Qed.

(** Row by row: the flag and the reward of row [i], from the entries of
    the row that the loop body reads. *)
Lemma compute_reward_and_end_row (self : Environment) (obs next_obs : np.ndarray T)
    (reward : list T) (end_ : list bool) (i : nat) (row : list T) :
  compute_reward_and_end self obs next_obs = Some (reward, end_) →
  i < np.shape0 obs →
  np.rows next_obs !! i = Some row →
  ∃ v w roll pitch,
    row !! 7%nat = Some v ∧ row !! 8%nat = Some w ∧
    row !! 5%nat = Some roll ∧ row !! 6%nat = Some pitch ∧
    end_ !! i
    = Some (flipped roll pitch
            || (position_norm (pos_size self) row >=? end_cond self)) ∧
    reward !! i
    = Some (if flipped roll pitch
            then shaped_reward self v w roll pitch (np.lit 0)
                 + flipping_penalization self
            else shaped_reward self v w roll pitch (np.lit 0)).
Proof.
  intros Hrun Hi Hrow.
  destruct (compute_reward_and_end_Some _ _ _ _ _ Hrun) as (_ & _ & Hrows).
  destruct (Hrows i Hi) as (row' & r & e & Hrow' & Htr & Hr & He).
  rewrite Hrow in Hrow'. injection Hrow' as <-.
  unfold transition in Htr.
  destruct (row !! 7%nat) as [v|]; simpl in Htr; [|done].
  destruct (row !! 8%nat) as [w|]; simpl in Htr; [|done].
  destruct (row !! 5%nat) as [roll|]; simpl in Htr; [|done].
  destruct (row !! 6%nat) as [pitch|]; simpl in Htr; [|done].
  exists v, w, roll, pitch. rewrite Hr, He.
  destruct (flipped roll pitch); simplify_eq/=; done.
Qed.

End Rows.

(** The flags of the three transitions: the first ends by a flip, the
    second by the distance, the third goes on. *)
Example trajectory_flags : Demo.outcome.2 = [true; true; false].
Proof. vm_compute. reflexivity. Qed.

Example trajectory_rewards :
  compute_reward Demo.self Demo.trajectory = Some Demo.outcome.1 ∧
  length Demo.outcome.1 = 3.
Proof. split; vm_compute; reflexivity. Qed.

(** The constants of the forward term, and the term at the target. *)
Example forward_curvature_binary64 :
  curvature_forward Demo.self = 0x1.aaaaaaaaaaaabp+1%float ∧
  forward_velocity_penalty Demo.self (f64 0.3) = f64 1.
Proof. split; vm_compute; reflexivity. Qed.

(** More current observations than next observations: the index runs
    out of [next_obs]. *)
Example fewer_next_observations :
  compute_reward_and_end Demo.self Demo.trajectory
                         (np.drop_first Demo.trajectory) = None.
Proof. vm_compute. reflexivity. Qed.

(** An array without the velocity columns. *)
Example too_narrow :
  compute_reward_and_end Demo.self (np.NdArray 7 [take 7 Demo.cruising])
                         (np.NdArray 7 [take 7 Demo.cruising]) = None.
Proof. vm_compute. reflexivity. Qed.

(** ** Properties of the control structure, in any arithmetic *)

Section Structure.
Context {T : Type} {NA : np.Arith T} {CS : CoppeliaSocket T}.
Local Open Scope np_scope.

Lemma init_Some (o a : list nat) (d : list T) (self : Environment) :
  init o a d = Some self →
  pos_size self = length d ∧ dest_pos self = d ∧
  end_cond self = np.lit 2.5 ∧ flipping_penalization self = np.lit (-2) ∧
  target_velocity self = np.lit 0.3 ∧ vmax self = np.lit 1 ∧
  vmin self = np.lit (-2) ∧
  curvature_forward self
  = np.lit (-2) * np.lit 1 / (np.lit 0.3 * np.lit (-2)) ∧
  vmin_lat self = np.lit (-1) ∧ curvature_lateral self = np.lit 3 ∧
  vmin_back self = np.lit (-0.8) ∧ curvature_back self = np.lit 2 ∧
  step self = None.
Proof.
  unfold init. destruct (o !! 0%nat); intros; simplify_eq/=. done.
Qed.

Lemma flipped_orb (roll pitch : T) :
  flipped roll pitch
  = (np.abs roll >=? np.lit 0.278) || (np.abs pitch >=? np.lit 0.278).
Proof. unfold flipped. by destruct (np.abs roll >=? np.lit 0.278). Qed.

(** C1.  In every row of a transition batch the end flag is set exactly
    when |roll| >= 0.278 or |pitch| >= 0.278 (the flip case) or the norm
    of the first P entries of the next observation is >= 2.5.  In the
    flip case, whatever the distance, the reward of the row is its shaped
    reward plus the flip penalty -2; otherwise it is the shaped reward
    unchanged. *)
Theorem termination_and_flip_penalty
    (o a : list nat) (d : list T) (self : Environment)
    (obs next_obs : np.ndarray T) (reward : list T) (end_ : list bool)
    (i : nat) (row : list T) :
  init o a d = Some self →
  compute_reward_and_end self obs next_obs = Some (reward, end_) →
  i < np.shape0 obs →
  np.rows next_obs !! i = Some row →
  ∃ v w roll pitch,
    row !! 7%nat = Some v ∧ row !! 8%nat = Some w ∧
    row !! 5%nat = Some roll ∧ row !! 6%nat = Some pitch ∧
    let flip :=
      (np.abs roll >=? np.lit 0.278) || (np.abs pitch >=? np.lit 0.278) in
    let far :=
      np.sqrt (np.sum (np.square <$> take (length d) row)) >=? np.lit 2.5 in
    let shaped := shaped_reward self v w roll pitch (np.lit 0) in
    end_ !! i = Some (flip || far) ∧
    reward !! i = Some (if flip then shaped + np.lit (-2) else shaped).
Proof.
  intros Hinit Hrun Hi Hrow.
  destruct (init_Some _ _ _ _ Hinit) as (HP & _ & Hend & Hpen & _).
  destruct (compute_reward_and_end_row _ _ _ _ _ _ _ Hrun Hi Hrow)
    as (v & w & roll & pitch & Hv & Hw & Hroll & Hpitch & He & Hr).
  exists v, w, roll, pitch. split_and!; [done..|]. cbv zeta. split.
  - rewrite He, flipped_orb. unfold position_norm. by rewrite HP, Hend.
  - rewrite Hr, flipped_orb. by rewrite Hpen.
Qed.

End Structure.

(** C1, run: the tumbling row of the trajectory ends the episode with
    the penalty added. *)
Lemma termination_and_flip_penalty_witness :
  init [9%nat] [12%nat] (f64 <$> [1; 0]%Q) = Some Demo.self ∧
  compute_reward_and_end Demo.self (np.drop_last Demo.trajectory)
                         (np.drop_first Demo.trajectory)
  = Some (Demo.outcome.1, Demo.outcome.2) ∧
  0 < np.shape0 (np.drop_last Demo.trajectory) ∧
  np.rows (np.drop_first Demo.trajectory) !! 0%nat = Some Demo.tumbling ∧
  ∃ v w roll pitch,
    Demo.tumbling !! 7%nat = Some v ∧ Demo.tumbling !! 8%nat = Some w ∧
    Demo.tumbling !! 5%nat = Some roll ∧ Demo.tumbling !! 6%nat = Some pitch ∧
    let flip :=
      (np.abs roll >=? f64 0.278)%np || (np.abs pitch >=? f64 0.278)%np in
    let far :=
      (np.sqrt (np.sum (np.square <$> take 2 Demo.tumbling)) >=? f64 2.5)%np in
    let shaped := shaped_reward Demo.self v w roll pitch (f64 0) in
    Demo.outcome.2 !! 0%nat = Some (flip || far) ∧
    Demo.outcome.1 !! 0%nat
    = Some (if flip then (shaped + f64 (-2))%np else shaped).
Proof.
  assert (H1 : init [9%nat] [12%nat] (f64 <$> [1; 0]%Q) = Some Demo.self)
    by reflexivity.
  assert (H2 : compute_reward_and_end Demo.self (np.drop_last Demo.trajectory)
                 (np.drop_first Demo.trajectory)
               = Some (Demo.outcome.1, Demo.outcome.2))
    by (vm_compute; reflexivity).
  assert (H3 : 0 < np.shape0 (np.drop_last Demo.trajectory))
    by (vm_compute; lia).
  assert (H4 : np.rows (np.drop_first Demo.trajectory) !! 0%nat
               = Some Demo.tumbling) by reflexivity.
  split_and!; [exact H1 | exact H2 | exact H3 | exact H4 |].
  exact (termination_and_flip_penalty _ _ _ _ _ _ _ _ _ _ H1 H2 H3 H4).
Defined.

Section FlatBack.
Context {T : Type} {NA : np.Arith T} {CS : CoppeliaSocket T}.
Local Open Scope np_scope.

(** C5.  The reward of a row is built from zero in two passes, the first
    for the roll (index 5), the second for the pitch (index 6).  A pass
    computes the flatness reward of the angle |x| * pi, takes
    flatness * base * 0.5 off the running reward when the base reward
    (forward term plus lateral term) is negative and adds it otherwise,
    and then adds the flatness reward itself.  (The flip penalty, when
    due, comes on top.) *)
Theorem flat_back_coupling
    (self : Environment) (obs next_obs : np.ndarray T)
    (reward : list T) (end_ : list bool) (i : nat) (row : list T) :
  compute_reward_and_end self obs next_obs = Some (reward, end_) →
  i < np.shape0 obs →
  np.rows next_obs !! i = Some row →
  ∃ v w roll pitch,
    row !! 7%nat = Some v ∧ row !! 8%nat = Some w ∧
    row !! 5%nat = Some roll ∧ row !! 6%nat = Some pitch ∧
    let base :=
      forward_velocity_penalty self v + lateral_velocity_penalty self w in
    let flatness x :=
      - vmin_back self / (curvature_back self * (np.abs x * np.pi) + np.lit 1)
      + vmin_back self in
    let rescale x r :=
      if base <? np.lit 0
      then r - flatness x * base * np.lit 0.5
      else r + flatness x * base * np.lit 0.5 in
    let after_roll := rescale roll (np.lit 0) + flatness roll in
    let after_pitch := rescale pitch after_roll + flatness pitch in
    reward !! i
    = Some (if flipped roll pitch
            then after_pitch + flipping_penalization self
            else after_pitch).
Proof.
  intros Hrun Hi Hrow.
  destruct (compute_reward_and_end_row _ _ _ _ _ _ _ Hrun Hi Hrow)
    as (v & w & roll & pitch & Hv & Hw & Hroll & Hpitch & _ & Hr).
  exists v, w, roll, pitch. split_and!; [done..|]. cbv zeta.
  rewrite Hr. reflexivity.
Qed.

End FlatBack.

(** C5, run: the straying row of the trajectory. *)
Lemma flat_back_coupling_witness :
  compute_reward_and_end Demo.self (np.drop_last Demo.trajectory)
                         (np.drop_first Demo.trajectory)
  = Some (Demo.outcome.1, Demo.outcome.2) ∧
  1 < np.shape0 (np.drop_last Demo.trajectory) ∧
  np.rows (np.drop_first Demo.trajectory) !! 1%nat = Some Demo.straying ∧
  ∃ v w roll pitch,
    Demo.straying !! 7%nat = Some v ∧ Demo.straying !! 8%nat = Some w ∧
    Demo.straying !! 5%nat = Some roll ∧ Demo.straying !! 6%nat = Some pitch ∧
    let base :=
      (forward_velocity_penalty Demo.self v
       + lateral_velocity_penalty Demo.self w)%np in
    let flatness x :=
      (- vmin_back Demo.self
         / (curvature_back Demo.self * (np.abs x * np.pi) + f64 1)
       + vmin_back Demo.self)%np in
    let rescale x r :=
      if (base <? f64 0)%np
      then (r - flatness x * base * f64 0.5)%np
      else (r + flatness x * base * f64 0.5)%np in
    let after_roll := (rescale roll (f64 0) + flatness roll)%np in
    let after_pitch := (rescale pitch after_roll + flatness pitch)%np in
    Demo.outcome.1 !! 1%nat
    = Some (if flipped roll pitch
            then (after_pitch + flipping_penalization Demo.self)%np
            else after_pitch).
Proof.
  assert (H2 : compute_reward_and_end Demo.self (np.drop_last Demo.trajectory)
                 (np.drop_first Demo.trajectory)
               = Some (Demo.outcome.1, Demo.outcome.2))
    by (vm_compute; reflexivity).
  assert (H3 : 1 < np.shape0 (np.drop_last Demo.trajectory))
    by (vm_compute; lia).
  assert (H4 : np.rows (np.drop_first Demo.trajectory) !! 1%nat
               = Some Demo.straying) by reflexivity.
  split_and!; [exact H2 | exact H3 | exact H4 |].
  exact (flat_back_coupling _ _ _ _ _ _ _ H2 H3 H4).
Defined.

Section Batches.
Context {T : Type} {NA : np.Arith T} {CS : CoppeliaSocket T}.
Local Open Scope np_scope.

(** A batch of one transition returns one reward and one flag, those of
    the row. *)
Lemma compute_reward_and_end_single (self : Environment) (o o' : list T) :
  9 ≤ length o' →
  ∃ r e, transition self o' (np.lit 0) = Some (r, e) ∧
         compute_reward_and_end self (np.reshape_row o) (np.reshape_row o')
         = Some ([r], [e]).
Proof.
  intros Hlen.
  destruct (compute_reward_and_end_total self (np.reshape_row o)
              (np.reshape_row o')) as [[reward end_] Hrun].
  { unfold np.rectangular. simpl. by constructor. }
  { done. }
  { done. }
  destruct (compute_reward_and_end_Some _ _ _ _ _ Hrun) as (Hlr & Hle & Hrows).
  destruct (Hrows 0%nat) as (row & r & e & Hrow & Htr & Hr & He).
  { unfold np.shape0. simpl. lia. }
  simpl in Hrow. injection Hrow as <-.
  exists r, e. split; [done|]. rewrite Hrun.
  unfold np.shape0 in Hlr, Hle. simpl in Hlr, Hle.
  destruct reward as [|r' [|]]; simplify_eq/=.
  destruct end_ as [|e' [|]]; simplify_eq/=. done.
Qed.

(** C6.  On N+1 observations, each with the nine columns the reward
    reads, [compute_reward] returns N rewards, and the i-th is the one
    the per-step computation returns for the pair (observation i,
    observation i+1). *)
Theorem compute_reward_pairs
    (self : Environment) (obs : np.ndarray T) (n : nat) :
  np.rectangular obs → 9 ≤ np.ncols obs → np.shape0 obs = S n →
  ∃ rewards,
    compute_reward self obs = Some rewards ∧ length rewards = n ∧
    ∀ i o o', i < n →
      np.rows obs !! i = Some o → np.rows obs !! S i = Some o' →
      ∃ r e,
        compute_reward_and_end self (np.reshape_row o) (np.reshape_row o')
        = Some ([r], [e]) ∧
        rewards !! i = Some r.
Proof.
  intros Hrect Hw Hn. unfold compute_reward.
  assert (Hlast : np.shape0 (np.drop_last obs) = n).
  { unfold np.shape0 in *. simpl. rewrite length_take. lia. }
  destruct (compute_reward_and_end_total self (np.drop_last obs)
              (np.drop_first obs)) as [[reward end_] Hrun].
  { unfold np.rectangular in *. simpl. by apply Forall_drop. }
  { done. }
  { rewrite Hlast. unfold np.shape0 in *. simpl. rewrite length_drop. lia. }
  rewrite Hrun. simpl. exists reward.
  destruct (compute_reward_and_end_Some _ _ _ _ _ Hrun) as (Hlr & _ & Hrows).
  rewrite Hlast in Hlr, Hrows. split_and!; [done|done|].
  intros i o o' Hi Ho Ho'.
  destruct (Hrows i Hi) as (row & r & e & Hrow & Htr & Hr & _).
  simpl in Hrow. rewrite lookup_drop in Hrow. simpl in Hrow.
  rewrite Ho' in Hrow. injection Hrow as <-.
  destruct (compute_reward_and_end_single self o o') as (r' & e' & Htr' & Hone).
  { eapply transition_length. eauto. }
  exists r', e'. split; [done|]. congruence.
Qed.

(** C9.  The current observations only enter the computation through
    their number: two batches with as many rows give, with the same next
    observations, the same rewards and flags (and fail together). *)
Theorem current_observation_unused
    (self : Environment) (obs1 obs2 next_obs : np.ndarray T) :
  np.shape0 obs1 = np.shape0 obs2 →
  compute_reward_and_end self obs1 next_obs
  = compute_reward_and_end self obs2 next_obs.
Proof.
  intros Hrows. unfold compute_reward_and_end. by rewrite Hrows.
Qed.

End Batches.

(** C6, run: the four observations of the trajectory give three rewards. *)
Lemma compute_reward_pairs_witness :
  np.rectangular Demo.trajectory ∧ 9 ≤ np.ncols Demo.trajectory ∧
  np.shape0 Demo.trajectory = 4 ∧
  ∃ rewards,
    compute_reward Demo.self Demo.trajectory = Some rewards ∧
    length rewards = 3 ∧
    ∀ i o o', i < 3 →
      np.rows Demo.trajectory !! i = Some o →
      np.rows Demo.trajectory !! S i = Some o' →
      ∃ r e,
        compute_reward_and_end Demo.self (np.reshape_row o) (np.reshape_row o')
        = Some ([r], [e]) ∧
        rewards !! i = Some r.
Proof.
  assert (H1 : np.rectangular Demo.trajectory)
    by (unfold np.rectangular; simpl; repeat constructor).
  assert (H2 : 9 ≤ np.ncols Demo.trajectory) by (simpl; lia).
  assert (H3 : np.shape0 Demo.trajectory = 4) by reflexivity.
  split_and!; [exact H1 | exact H2 | exact H3 |].
  exact (compute_reward_pairs Demo.self Demo.trajectory 3 H1 H2 H3).
Defined.

(** C9, run: the current observations replaced by as many others. *)
Lemma current_observation_unused_witness :
  np.shape0 (np.drop_last Demo.trajectory)
  = np.shape0 (np.NdArray 9 [Demo.tumbling; Demo.tumbling; Demo.tumbling]) ∧
  compute_reward_and_end Demo.self (np.drop_last Demo.trajectory)
                         (np.drop_first Demo.trajectory)
  = compute_reward_and_end Demo.self
      (np.NdArray 9 [Demo.tumbling; Demo.tumbling; Demo.tumbling])
      (np.drop_first Demo.trajectory).
Proof.
  assert (H1 : np.shape0 (np.drop_last Demo.trajectory)
               = np.shape0 (np.NdArray 9 [Demo.tumbling; Demo.tumbling;
                                          Demo.tumbling])) by reflexivity.
  split; [exact H1|].
  exact (current_observation_unused Demo.self _ _ _ H1).
Defined.

(** ** The destination *)

Section Destination.
Context {T : Type} {NA : np.Arith T} {CS : CoppeliaSocket T}.
Local Open Scope np_scope.

Lemma init_same_but_destination (o a : list nat) (d1 d2 : list T)
    (e1 e2 : Environment) :
  length d1 = length d2 →
  init o a d1 = Some e1 → init o a d2 = Some e2 →
  same_but_destination e1 e2.
Proof.
  unfold init. intros Hlen H1 H2.
  destruct (o !! 0%nat); simplify_eq/=.
  unfold same_but_destination. simpl. by rewrite Hlen.
Qed.

Lemma compute_reward_and_end_same (e1 e2 : Environment)
    (obs next_obs : np.ndarray T) :
  same_but_destination e1 e2 →
  compute_reward_and_end e1 obs next_obs
  = compute_reward_and_end e2 obs next_obs.
Proof.
  destruct e1, e2. unfold same_but_destination. simpl.
  intros (? & ? & ? & ? & ? & ? & ? & ? & ? & ? & ? & ? & ? & ? & ?).
  simplify_eq. reflexivity.
Qed.

Lemma max_ret_same (e1 e2 : Environment) (o : list T) :
  same_but_destination e1 e2 → max_ret e1 o = max_ret e2 o.
Proof. intros (HP & _). unfold max_ret. by rewrite HP. Qed.

(** [act] keeps two such environments in step: it returns the same
    triple and leaves them differing in the destination only. *)
Lemma act_same (e1 e2 : Environment) (action : list T) :
  same_but_destination e1 e2 →
  snd <$> act e1 action = snd <$> act e2 action ∧
  ∀ e1' e2' out1 out2,
    act e1 action = Some (e1', out1) → act e2 action = Some (e2', out2) →
    same_but_destination e1' e2'.
Proof.
  intros Hsame. pose proof Hsame as Hfields.
  destruct Hfields as (? & ? & Hobs & Hcop & ? & ? & ? & ? & ? & ? & ? & ? & ?
                       & ? & Hstep & Hshape).
  unfold act. rewrite <- Hobs, <- Hcop, <- Hstep, <- Hshape.
  destruct (socket_act (coppelia e1) action) as [c next_obs].
  rewrite <- (compute_reward_and_end_same e1 e2 _ _ Hsame).
  destruct (compute_reward_and_end e1 _ _) as [[reward end_]|]; simpl; [|done].
  destruct (assign_obs (obs_shape e1) next_obs) as [o'|]; simpl; [|done].
  split; [done|]. intros; simplify_eq.
  unfold same_but_destination. simpl. done.
Qed.

Lemma reset_same (e1 e2 : Environment) (u : T) :
  same_but_destination e1 e2 →
  (reset e1 u).2 = (reset e2 u).2 ∧
  same_but_destination (reset e1 u).1 (reset e2 u).1.
Proof.
  intros Hsame. pose proof Hsame as Hfields.
  destruct Hfields as (? & ? & Hobs & Hcop & ? & ? & ? & ? & ? & ? & ? & ? & ?
                       & ? & Hstep & Hshape).
  unfold reset. rewrite <- Hcop.
  destruct (socket_reset (coppelia e1) _) as [c o]. simpl.
  split; [done|]. unfold same_but_destination. simpl. done.
Qed.

(** C10.  Two environments constructed alike, with destinations of the
    same length, return the same rewards and flags, the same
    [compute_reward], the same [max_ret] and the same triple from [act]:
    only the length of the destination matters. *)
Theorem destination_unused
    (o a : list nat) (d1 d2 : list T) (e1 e2 : Environment) :
  length d1 = length d2 →
  init o a d1 = Some e1 → init o a d2 = Some e2 →
  (∀ obs next_obs,
     compute_reward_and_end e1 obs next_obs
     = compute_reward_and_end e2 obs next_obs) ∧
  (∀ obs, compute_reward e1 obs = compute_reward e2 obs) ∧
  (∀ obs, max_ret e1 obs = max_ret e2 obs) ∧
  (∀ action, snd <$> act e1 action = snd <$> act e2 action).
Proof.
  intros Hlen H1 H2.
  pose proof (init_same_but_destination _ _ _ _ _ _ Hlen H1 H2) as Hsame.
  split_and!.
  - intros. by apply compute_reward_and_end_same.
  - intros. unfold compute_reward. by rewrite (compute_reward_and_end_same e1 e2).
  - intros. by apply max_ret_same.
  - intros. by apply act_same.
Qed.

(** *** [max_ret] *)

(** C7, as the code has it.  [max_ret] returns a hundred times the norm
    of the first P entries of the observation, P the length of the
    destination: the distance of the position to the origin. *)
Theorem max_ret_norm
    (o a : list nat) (d : list T) (self : Environment) (observation : list T) :
  init o a d = Some self →
  max_ret self observation
  = [np.lit 100
     * np.sqrt (np.sum (np.square <$> take (length d) observation))].
Proof.
  intros Hinit. destruct (init_Some _ _ _ _ Hinit) as (HP & _).
  unfold max_ret, np.row_norms. simpl. by rewrite HP.
Qed.

End Destination.

(** C10, run. *)
Lemma destination_unused_witness :
  length (f64 <$> [1; 0]%Q) = length (f64 <$> [-4; 7]%Q) ∧
  init [9%nat] [12%nat] (f64 <$> [1; 0]%Q) = Some Demo.self ∧
  init [9%nat] [12%nat] (f64 <$> [-4; 7]%Q) = Some Demo2.self ∧
  compute_reward_and_end Demo.self (np.drop_last Demo.trajectory)
                         (np.drop_first Demo.trajectory)
  = compute_reward_and_end Demo2.self (np.drop_last Demo.trajectory)
                           (np.drop_first Demo.trajectory) ∧
  max_ret Demo.self Demo.tumbling = max_ret Demo2.self Demo.tumbling.
Proof.
  assert (H1 : length (f64 <$> [1; 0]%Q) = length (f64 <$> [-4; 7]%Q))
    by reflexivity.
  assert (H2 : init [9%nat] [12%nat] (f64 <$> [1; 0]%Q) = Some Demo.self)
    by reflexivity.
  assert (H3 : init [9%nat] [12%nat] (f64 <$> [-4; 7]%Q) = Some Demo2.self)
    by reflexivity.
  destruct (destination_unused _ _ _ _ _ _ H1 H2 H3) as (Hc & _ & Hm & _).
  split_and!; [exact H1 | exact H2 | exact H3 | apply Hc | apply Hm].
Defined.

(** C7 fails as stated: at the destination itself the distance to the
    destination is zero, and [max_ret] returns a hundred. *)
Lemma max_ret_not_to_destination :
  dest_pos Demo.self = f64 <$> [1; 0]%Q ∧
  max_ret Demo.self Demo2.arrived = [f64 100] ∧
  max_ret_to_destination Demo.self Demo2.arrived = [f64 0] ∧
  max_ret Demo.self Demo2.arrived
  ≠ max_ret_to_destination Demo.self Demo2.arrived.
Proof.
  split_and!; try (vm_compute; reflexivity).
  intros Heq.
  apply (f_equal (λ l, match l with
                       | [x] => PrimFloat.eqb x (f64 100)
                       | _ => false
                       end)) in Heq.
  vm_compute in Heq. discriminate.
Qed.

(** C7, run. *)
Lemma max_ret_norm_witness :
  init [9%nat] [12%nat] (f64 <$> [1; 0]%Q) = Some Demo.self ∧
  max_ret Demo.self Demo.tumbling
  = [(f64 100
      * np.sqrt (np.sum (np.square
                           <$> take (length (f64 <$> [1; 0]%Q)) Demo.tumbling)))%np].
Proof.
  assert (H1 : init [9%nat] [12%nat] (f64 <$> [1; 0]%Q) = Some Demo.self)
    by reflexivity.
  split; [exact H1|].
  exact (max_ret_norm _ _ _ _ Demo.tumbling H1).
Defined.

(** ** The episode state *)

Section Episode.
Context {T : Type} {NA : np.Arith T} {CS : CoppeliaSocket T}.
Local Open Scope np_scope.

(** The broadcast of an observation of two entries or more. *)
Lemma assign_obs_long (shape : list nat) (new o : list T) :
  2 ≤ length new →
  assign_obs shape new = Some o
  ↔ last shape = Some (length new)
    ∧ o = mjoin (replicate (foldr Nat.mul 1%nat (removelast shape)) new).
Proof.
  intros Hlen. unfold assign_obs.
  destruct (last shape) as [w|]; [|split; [done | intros [? _]; done]].
  case_decide as Hw.
  - subst w. split; [intros [= <-]; done | intros [_ ->]; done].
  - destruct new as [|x [|y new]]; simpl in Hlen; try lia.
    split; [done|]. intros [Hlast _]. congruence.
Qed.

(** What a call of [act] that returns has done. *)
Lemma act_Some (self self' : Environment) (action next_obs reward : list T)
    (end_ : list bool) :
  act self action = Some (self', (next_obs, reward, end_)) →
  ∃ c,
    socket_act (coppelia self) action = (c, next_obs) ∧
    compute_reward_and_end self (np.reshape_row (obs self))
                           (np.reshape_row next_obs) = Some (reward, end_) ∧
    9 ≤ length next_obs ∧
    last (obs_shape self) = Some (length next_obs) ∧
    self' = set_episode self (step self) (obs_shape self)
              (mjoin (replicate
                        (foldr Nat.mul 1%nat (removelast (obs_shape self)))
                        next_obs)) c.
Proof.
  unfold act. intros Hact.
  destruct (socket_act (coppelia self) action) as [c o].
  destruct (compute_reward_and_end self _ _) as [[r e]|] eqn:Hce;
    simpl in Hact; [|done].
  destruct (assign_obs (obs_shape self) o) as [o'|] eqn:Hassign;
    simpl in Hact; [|done].
  simplify_eq. exists c.
  destruct (compute_reward_and_end_Some _ _ _ _ _ Hce) as (_ & _ & Hrows).
  destruct (Hrows 0%nat) as (row & r' & e' & Hrow & Htr & _).
  { unfold np.shape0. simpl. lia. }
  simpl in Hrow. injection Hrow as <-.
  assert (Hw : 9 ≤ length next_obs) by (eapply transition_length; eauto).
  apply assign_obs_long in Hassign as [Hlast ->]; [|lia]. done.
Qed.

(** [act] returns when the simulator answers with an observation of nine
    entries or more that is as long as the last dimension of [__obs]. *)
Lemma act_is_Some (self : Environment) (action : list T) :
  let next_obs := (socket_act (coppelia self) action).2 in
  last (obs_shape self) = Some (length next_obs) → 9 ≤ length next_obs →
  is_Some (act self action).
Proof.
  unfold act. destruct (socket_act (coppelia self) action) as [c next_obs].
  simpl. intros Hlast Hw.
  destruct (compute_reward_and_end_single self (obs self) next_obs Hw)
    as (r & e & _ & ->). simpl.
  destruct (assign_obs (obs_shape self) next_obs) as [o|] eqn:Hassign;
    simpl; [eauto|].
  assert (is_Some (assign_obs (obs_shape self) next_obs)) as [o Ho].
  { eexists. apply assign_obs_long; [lia|]. eauto. }
  congruence.
Qed.

(** C8, as the code has it.  A call of [act] that returns has stored the
    observation the simulator answered with, which it also returns, in
    the array [__obs], whose shape stays: once for every index of the
    leading dimensions, so that the array holds exactly the new
    observation when there is one such index, as for the array a
    [reset] has set; and it has left the step counter as it was.
    [reset] sets the step counter to zero and the last observation to
    the one the simulator starts with, which it also returns. *)
Theorem act_and_reset_state (self : Environment) (action : list T) (u : T) :
  (∀ self' next_obs reward end_,
     act self action = Some (self', (next_obs, reward, end_)) →
     let copies := foldr Nat.mul 1%nat (removelast (obs_shape self)) in
     next_obs = (socket_act (coppelia self) action).2 ∧
     obs self' = mjoin (replicate copies next_obs) ∧
     (copies = 1%nat → obs self' = next_obs) ∧
     obs_shape self' = obs_shape self ∧
     step self' = step self) ∧
  (let fresh :=
     (socket_reset (coppelia self)
                   [np.lit 0; np.lit 0; np.lit 2 * u - np.lit 1]).2 in
   (reset self u).2 = fresh ∧ obs (reset self u).1 = fresh ∧
   obs_shape (reset self u).1 = [length fresh] ∧
   step (reset self u).1 = Some 0%Z) ∧
  (∀ self' next_obs reward end_,
     act (reset self u).1 action = Some (self', (next_obs, reward, end_)) →
     obs self' = next_obs ∧ step self' = Some 0%Z).
Proof.
  assert (Hact : ∀ e e' next_obs reward end_,
    act e action = Some (e', (next_obs, reward, end_)) →
    next_obs = (socket_act (coppelia e) action).2 ∧
    obs e' = mjoin (replicate (foldr Nat.mul 1%nat (removelast (obs_shape e)))
                              next_obs) ∧
    obs_shape e' = obs_shape e ∧ step e' = step e).
  { intros e e' next_obs reward end_ He.
    destruct (act_Some _ _ _ _ _ _ He) as (c & Hc & _ & _ & _ & ->).
    rewrite Hc. done. }
  assert (Hreset : obs_shape (reset self u).1
                   = [length (reset self u).2]
                   ∧ step (reset self u).1 = Some 0%Z
                   ∧ obs (reset self u).1 = (reset self u).2
                   ∧ (reset self u).2
                     = (socket_reset (coppelia self)
                          [np.lit 0; np.lit 0; np.lit 2 * u - np.lit 1]).2).
  { unfold reset. simpl.
    destruct (socket_reset (coppelia self) _) as [c o]. done. }
  destruct Hreset as (Hshape & Hstep & Hobs & Hfresh).
  split_and!.
  - intros self' next_obs reward end_ He copies.
    destruct (Hact _ _ _ _ _ He) as (Hnext & Hstored & Hsh & Hst).
    split_and!; try done.
    intros Hone. rewrite Hstored. subst copies. rewrite Hone. simpl.
    by rewrite app_nil_r.
  - cbv zeta. rewrite <- Hfresh. done.
  - intros self' next_obs reward end_ He.
    destruct (Hact _ _ _ _ _ He) as (_ & Hstored & _ & Hst).
    rewrite Hst, Hstep, Hstored, Hshape. simpl. by rewrite app_nil_r.
Qed.

End Episode.

(** C8 fails as stated: a step into a fresh episode leaves the step
    counter at zero. *)
Lemma act_keeps_step_counter :
  step Episode.started = Some 0%Z ∧
  act Episode.started Demo.tumbling = Some Episode.stepped ∧
  obs Episode.stepped.1 = Demo.tumbling ∧
  step Episode.stepped.1 = Some 0%Z ∧
  step Episode.stepped.1 = step Episode.started.
Proof. split_and!; vm_compute; reflexivity. Qed.

(** C8, run. *)
Lemma act_and_reset_state_witness :
  act Episode.started Demo.tumbling
  = Some (Episode.stepped.1,
          (Episode.stepped.2.1.1, Episode.stepped.2.1.2, Episode.stepped.2.2)) ∧
  foldr Nat.mul 1%nat (removelast (obs_shape Episode.started)) = 1%nat ∧
  obs Episode.stepped.1 = Episode.stepped.2.1.1 ∧
  step Episode.stepped.1 = step Episode.started ∧
  step (reset Episode.started (f64 0.5)).1 = Some 0%Z.
Proof.
  assert (H1 : act Episode.started Demo.tumbling
               = Some (Episode.stepped.1,
                       (Episode.stepped.2.1.1, Episode.stepped.2.1.2,
                        Episode.stepped.2.2)))
    by (vm_compute; reflexivity).
  assert (H2 : foldr Nat.mul 1%nat (removelast (obs_shape Episode.started))
               = 1%nat) by reflexivity.
  destruct (act_and_reset_state Episode.started Demo.tumbling (f64 0.5))
    as (Hact & (_ & _ & _ & Hzero) & _).
  destruct (Hact _ _ _ _ H1) as (_ & _ & Hobs & _ & Hstep).
  split_and!; [exact H1 | exact H2 | exact (Hobs H2) | exact Hstep | exact Hzero].
Defined.

(** ** The shaping curves, over the real numbers *)

Lemma Rltb_true (x y : R) : Rltb x y = true ↔ (x < y)%R.
Proof. unfold Rltb. destruct (Rlt_dec x y); split; (done || lra). Qed.

Lemma Rltb_false (x y : R) : Rltb x y = false ↔ (y <= x)%R.
Proof. unfold Rltb. destruct (Rlt_dec x y); split; (done || lra). Qed.

Lemma Rgeb_true (x y : R) : Rgeb x y = true ↔ (x >= y)%R.
Proof. unfold Rgeb. destruct (Rge_dec x y); split; (done || lra). Qed.

Lemma Rgeb_false (x y : R) : Rgeb x y = false ↔ (x < y)%R.
Proof. unfold Rgeb. destruct (Rge_dec x y); split; (done || lra). Qed.

(** The curve is strictly decreasing from [A + m] towards [m]. *)
Section Saturating.
Local Open Scope R_scope.
Variables A c m : R.
Hypothesis A_pos : 0 < A.
Hypothesis c_pos : 0 < c.

Local Abbreviation saturating := (saturating A c m).

Lemma saturating_at_0 : saturating 0 = A + m.
Proof. unfold saturating. field. Qed.

Lemma saturating_decreasing (d1 d2 : R) :
  0 <= d1 → d1 < d2 → saturating d2 < saturating d1.
Proof.
  intros H1 H12. unfold saturating.
  apply Rplus_lt_compat_r. unfold Rdiv.
  apply Rmult_lt_compat_l; [done|].
  assert (0 <= c * d1) by (apply Rmult_le_pos; lra).
  assert (c * d1 < c * d2) by (apply Rmult_lt_compat_l; lra).
  apply Rinv_lt_contravar; [apply Rmult_lt_0_compat|]; lra.
Qed.

Lemma saturating_above (d : R) : 0 <= d → m < saturating d.
Proof.
  intros Hd. unfold saturating.
  assert (0 <= c * d) by (apply Rmult_le_pos; lra).
  assert (0 < A / (c * d + 1)); [|lra].
  apply Rdiv_lt_0_compat; lra.
Qed.

Lemma saturating_below (d : R) : 0 <= d → saturating d <= A + m.
Proof.
  intros Hd. destruct (Req_dec d 0) as [->|Hne].
  - rewrite saturating_at_0. lra.
  - rewrite <- saturating_at_0. left.
    apply saturating_decreasing; lra.
Qed.

Lemma saturating_top (d : R) : 0 <= d → (saturating d = A + m ↔ d = 0).
Proof.
  intros Hd. split.
  - intros Heq. destruct (Req_dec d 0) as [|Hne]; [done|].
    assert (saturating d < saturating 0)
      by (apply saturating_decreasing; lra).
    rewrite saturating_at_0 in *. lra.
  - intros ->. apply saturating_at_0.
Qed.

(** The curve comes as close to [m] as one wants. *)
Lemma saturating_limit (eps : R) :
  0 < eps → ∃ M, 0 <= M ∧ ∀ d, M < d → saturating d < m + eps.
Proof.
  intros Heps. exists (A / (c * eps)).
  assert (0 < A / (c * eps)) by (apply Rdiv_lt_0_compat; nra).
  split; [lra|]. intros d Hd. unfold saturating.
  assert (A / (c * d + 1) < eps); [|lra].
  assert (Hcd : A < eps * (c * d + 1)).
  { assert (A / (c * eps) * (c * eps) = A) by (field; nra).
    assert (A / (c * eps) * (c * eps) < d * (c * eps))
      by (apply Rmult_lt_compat_r; nra).
    nra. }
  apply (Rmult_lt_reg_r (c * d + 1)); [nra|].
  unfold Rdiv. rewrite Rmult_assoc, Rinv_l by nra. lra.
Qed.

End Saturating.

Section Reals.
Context {CS : CoppeliaSocket R}.
Local Open Scope R_scope.

(** The constants [__init__] sets, as real numbers. *)
Lemma init_real (o a : list nat) (d : list R) (self : Environment) :
  init o a d = Some self →
  pos_size self = length d ∧ end_cond self = 5 / 2 ∧
  flipping_penalization self = -2 ∧ target_velocity self = 3 / 10 ∧
  vmax self = 1 ∧ vmin self = -2 ∧ curvature_forward self = 10 / 3 ∧
  vmin_lat self = -1 ∧ curvature_lateral self = 3 ∧
  vmin_back self = - (4 / 5) ∧ curvature_back self = 2.
Proof.
  intros Hinit.
  destruct (init_Some _ _ _ _ Hinit)
    as (-> & _ & -> & -> & -> & -> & -> & -> & -> & -> & -> & -> & _).
  reals. split_and!; try done; lra.
Qed.

Lemma forward_velocity_penalty_saturating (o a : list nat) (d : list R)
    (self : Environment) (v : R) :
  init o a d = Some self →
  forward_velocity_penalty self v = saturating 3 (10 / 3) (-2) (Rabs (3 / 10 - v)).
Proof.
  intros Hinit.
  destruct (init_real _ _ _ _ Hinit)
    as (_ & _ & _ & Ht & Hmax & Hmin & Hc & _).
  unfold forward_velocity_penalty, saturating. rewrite Ht, Hmax, Hmin, Hc.
  reals. f_equal. f_equal; [lra|]. f_equal. lra.
Qed.

(** C3.  The forward-velocity term is
    (vmax - vmin) / (curvature_fwd * |target_v - v| + 1) + vmin, with
    vmax = 1, vmin = -2, target_v = 0.3 and curvature_fwd = 10/3.  It
    never exceeds vmax and equals it exactly at the target velocity; it
    is strictly decreasing in |target_v - v|; it takes the same value on
    both sides of the target; and it lies between vmin and vmax. *)
Theorem forward_velocity_term
    (o a : list nat) (d : list R) (self : Environment) :
  init o a d = Some self →
  let f := forward_velocity_penalty self in
  let target_v := target_velocity self in
  (∀ v, f v = (vmax self - vmin self)
              / (curvature_forward self * Rabs (target_v - v) + 1)
              + vmin self) ∧
  (vmax self = 1 ∧ vmin self = -2 ∧ target_v = 3 / 10 ∧
   curvature_forward self = 10 / 3) ∧
  (∀ v, f v <= vmax self) ∧
  (∀ v, f v = vmax self ↔ v = target_v) ∧
  (∀ v1 v2, Rabs (target_v - v1) < Rabs (target_v - v2) → f v2 < f v1) ∧
  (∀ x, f (target_v + x) = f (target_v - x)) ∧
  (∀ v, vmin self <= f v <= vmax self).
Proof.
  intros Hinit f target_v. subst f target_v.
  pose proof (init_real _ _ _ _ Hinit)
    as (_ & _ & _ & Ht & Hmax & Hmin & Hc & _).
  assert (Hf := λ v, forward_velocity_penalty_saturating o a d self v Hinit).
  rewrite Ht, Hmax, Hmin.
  assert (Hbelow : ∀ v, forward_velocity_penalty self v <= 1).
  { intros v. rewrite Hf.
    replace 1 with (3 + -2) by lra.
    apply saturating_below; [lra..|]. apply Rabs_pos. }
  split_and!.
  - intros v. unfold forward_velocity_penalty.
    rewrite Ht, Hmax, Hmin. reals. f_equal. f_equal. f_equal. lra.
  - done.
  - done.
  - done.
  - done.
  - exact Hbelow.
  - intros v. rewrite Hf. replace 1 with (3 + -2) by lra.
    rewrite saturating_top by (lra || apply Rabs_pos).
    split.
    + intros H0. destruct (Req_dec (3 / 10 - v) 0) as [|Hne]; [lra|].
      apply Rabs_no_R0 in Hne. done.
    + intros ->. rewrite Rminus_diag. apply Rabs_R0.
  - intros v1 v2 Hlt. rewrite !Hf.
    apply saturating_decreasing; [lra..| |done]. apply Rabs_pos.
  - intros x. rewrite !Hf. f_equal.
    replace (3 / 10 - (3 / 10 + x)) with (- x) by lra.
    replace (3 / 10 - (3 / 10 - x)) with x by lra.
    apply Rabs_Ropp.
  - intros v. split; [|apply Hbelow].
    rewrite Hf. left. apply saturating_above; [lra..|]. apply Rabs_pos.
Qed.

(** The end flag over the reals, with the comparisons read as
    propositions. *)
Lemma end_flag_real (o a : list nat) (d : list R) (self : Environment)
    (obs next_obs : np.ndarray R) (reward : list R) (end_ : list bool)
    (i : nat) (row : list R) (roll pitch : R) :
  init o a d = Some self →
  compute_reward_and_end self obs next_obs = Some (reward, end_) →
  (i < np.shape0 obs)%nat →
  np.rows next_obs !! i = Some row →
  row !! 5%nat = Some roll → row !! 6%nat = Some pitch →
  end_ !! i = Some true
  ↔ Rabs roll >= 278 / 1000 ∨ Rabs pitch >= 278 / 1000
    ∨ R_sqrt.sqrt (np.sum (np.square <$> take (length d) row)) >= 5 / 2.
Proof.
  intros Hinit Hrun Hi Hrow Hroll Hpitch.
  pose proof (init_real _ _ _ _ Hinit) as (HP & Hend & _).
  destruct (compute_reward_and_end_row _ _ _ _ _ _ _ Hrun Hi Hrow)
    as (v & w & roll' & pitch' & _ & _ & Hroll' & Hpitch' & -> & _).
  simplify_eq. rewrite flipped_orb. unfold position_norm.
  rewrite HP, Hend. reals.
  rewrite <- !Rgeb_true.
  destruct (Rgeb (Rabs roll) _), (Rgeb (Rabs pitch) _), (Rgeb (R_sqrt.sqrt _) _);
    simpl; split; intros; simplify_eq; auto;
    repeat match goal with H : _ ∨ _ |- _ => destruct H end; done.
Qed.

Lemma lateral_velocity_penalty_saturating (o a : list nat) (d : list R)
    (self : Environment) (w : R) :
  init o a d = Some self →
  lateral_velocity_penalty self w = saturating 1 3 (-1) (Rabs w).
Proof.
  intros Hinit.
  destruct (init_real _ _ _ _ Hinit)
    as (_ & _ & _ & _ & _ & _ & _ & Hmin & Hc & _).
  unfold lateral_velocity_penalty, saturating. rewrite Hmin, Hc.
  reals. f_equal. f_equal; [lra|]. f_equal. lra.
Qed.

(** C4.  The lateral-velocity term is
    -vmin_lat / (curvature_lat * |v_lat| + 1) + vmin_lat, with
    vmin_lat = -1 and curvature_lat = 3.  It is 0 at v_lat = 0 and below
    0 everywhere else; it is strictly decreasing in |v_lat|; and it
    stays above vmin_lat while coming as close to it as one wants. *)
Theorem lateral_velocity_term
    (o a : list nat) (d : list R) (self : Environment) :
  init o a d = Some self →
  let g := lateral_velocity_penalty self in
  (∀ w, g w = - vmin_lat self / (curvature_lateral self * Rabs w + 1)
              + vmin_lat self) ∧
  (vmin_lat self = -1 ∧ curvature_lateral self = 3) ∧
  g 0 = 0 ∧
  (∀ w, g w <= 0) ∧
  (∀ w, g w = 0 ↔ w = 0) ∧
  (∀ w1 w2, Rabs w1 < Rabs w2 → g w2 < g w1) ∧
  (∀ w, vmin_lat self < g w) ∧
  (∀ eps, 0 < eps → ∃ M, ∀ w, M < Rabs w → g w < vmin_lat self + eps).
Proof.
  intros Hinit g. subst g.
  pose proof (init_real _ _ _ _ Hinit)
    as (_ & _ & _ & _ & _ & _ & _ & Hmin & Hc & _).
  assert (Hg := λ w, lateral_velocity_penalty_saturating o a d self w Hinit).
  rewrite Hmin, Hc.
  split_and!.
  - intros w. unfold lateral_velocity_penalty.
    rewrite Hmin, Hc. reals. f_equal. f_equal. f_equal. lra.
  - done.
  - done.
  - rewrite Hg, Rabs_R0, saturating_at_0. lra.
  - intros w. rewrite Hg. replace 0 with (1 + -1) by lra.
    apply saturating_below; [lra..|]. apply Rabs_pos.
  - intros w. rewrite Hg. replace 0 with (1 + -1) at 1 by lra.
    rewrite saturating_top by (lra || apply Rabs_pos).
    split.
    + intros H0. destruct (Req_dec w 0) as [|Hne]; [done|].
      apply Rabs_no_R0 in Hne. done.
    + intros ->. apply Rabs_R0.
  - intros w1 w2 Hlt. rewrite !Hg.
    apply saturating_decreasing; [lra..| |done]. apply Rabs_pos.
  - intros w. rewrite Hg. apply saturating_above; [lra..|]. apply Rabs_pos.
  - intros eps Heps.
    destruct (saturating_limit 1 3 (-1) ltac:(lra) ltac:(lra) eps Heps)
      as (M & _ & HM).
    exists M. intros w Hw. rewrite Hg. by apply HM.
Qed.

(** *** The cruising robot *)

Lemma sum_squares_zero (l : list R) :
  Forall (λ x, x = 0) l → np.sum (np.square <$> l) = 0.
Proof.
  unfold np.sum. reals.
  assert (Hacc : ∀ acc, Forall (λ x, x = 0) l →
                        foldl Rplus acc (np.square <$> l) = acc).
  { induction l as [|x l IH]; intros acc Hall; simpl; [done|].
    inversion Hall as [|? ? -> Hl]; subst.
    rewrite IH by done. unfold np.square. reals. lra. }
  intros Hall. rewrite Hacc by done. lra.
Qed.

Lemma flat_back_reward_saturating (o a : list nat) (d : list R)
    (self : Environment) (x : R) :
  init o a d = Some self →
  flat_back_reward self x = saturating (4 / 5) 2 (- (4 / 5)) (Rabs x * PI).
Proof.
  intros Hinit.
  destruct (init_real _ _ _ _ Hinit)
    as (_ & _ & _ & _ & _ & _ & _ & _ & _ & Hmin & Hc).
  unfold flat_back_reward, saturating. rewrite Hmin, Hc. reals.
  f_equal. f_equal; [lra|]. f_equal. lra.
Qed.

Lemma flat_back_reward_level (o a : list nat) (d : list R) (self : Environment) :
  init o a d = Some self → flat_back_reward self 0 = 0.
Proof.
  intros Hinit. rewrite (flat_back_reward_saturating _ _ _ _ _ Hinit).
  rewrite Rabs_R0, Rmult_0_l, saturating_at_0. lra.
Qed.

Lemma flat_back_reward_nonpos (o a : list nat) (d : list R) (self : Environment)
    (x : R) :
  init o a d = Some self → flat_back_reward self x <= 0.
Proof.
  intros Hinit. rewrite (flat_back_reward_saturating _ _ _ _ _ Hinit).
  replace 0 with (4 / 5 + - (4 / 5)) by lra.
  apply saturating_below; [lra..|].
  apply Rmult_le_pos; [apply Rabs_pos|]. left. apply PI_RGT_0.
Qed.

(** On a level back the two passes leave the reward as it was: the base
    reward only enters multiplied by the flatness reward, which is 0. *)
Lemma flat_back_update_level (o a : list nat) (d : list R) (self : Environment)
    (base r : R) :
  init o a d = Some self → flat_back_update self base 0 r = r.
Proof.
  intros Hinit. unfold flat_back_update.
  rewrite (flat_back_reward_level _ _ _ _ Hinit).
  cbv zeta. destruct (np.lt base (np.lit 0)); reals; lra.
Qed.

Lemma cruising_transition (o a : list nat) (d : list R) (self : Environment)
    (row : list R) :
  init o a d = Some self →
  row !! 7%nat = Some (np.lit 0.3) → row !! 8%nat = Some 0 →
  row !! 5%nat = Some 0 → row !! 6%nat = Some 0 →
  Forall (λ x, x = 0) (take (length d) row) →
  transition self row (np.lit 0) = Some (0, false).
Proof.
  intros Hinit Hv Hw Hroll Hpitch Hpos.
  pose proof (init_real _ _ _ _ Hinit) as (HP & Hend & _).
  unfold transition. rewrite Hv, Hw, Hroll, Hpitch.
  cbn [mbind option_bind]. cbv zeta.
  unfold shaped_reward. rewrite !(flat_back_update_level _ _ _ _ _ _ Hinit).
  assert (Hflip : flipped 0 0 = false).
  { unfold flipped. reals. rewrite Rabs_R0.
    assert (Hlow : Rgeb 0 (278 / 1000) = false) by (apply Rgeb_false; lra).
    by rewrite Hlow. }
  rewrite Hflip. f_equal. f_equal.
  - reals. lra.
  - unfold position_norm. rewrite HP, sum_squares_zero by done.
    rewrite Hend. reals. rewrite sqrt_0. apply Rgeb_false. lra.
Qed.

(** The cruising robot.  When the next observation has the target
    forward velocity 0.3, no lateral velocity, a level back and the
    position at the origin, the forward-velocity term is vmax = 1, the
    lateral term and both flatness rewards are 0, which neither ever
    exceeds, the reward returned is 0 (the base reward only enters
    multiplied by the flatness rewards) and the end flag is False. *)
Theorem cruising_reward
    (o a : list nat) (d : list R) (self : Environment) (old row : list R) :
  init o a d = Some self →
  row !! 7%nat = Some (np.lit 0.3) → row !! 8%nat = Some 0 →
  row !! 5%nat = Some 0 → row !! 6%nat = Some 0 →
  Forall (λ x, x = 0) (take (length d) row) →
  forward_velocity_penalty self (np.lit 0.3) = vmax self ∧ vmax self = 1 ∧
  lateral_velocity_penalty self 0 = 0 ∧
  (∀ w', lateral_velocity_penalty self w' <= 0) ∧
  flat_back_reward self 0 = 0 ∧
  (∀ x, flat_back_reward self x <= 0) ∧
  compute_reward_and_end self (np.reshape_row old) (np.reshape_row row)
  = Some ([0], [false]).
Proof.
  intros Hinit Hv Hw Hroll Hpitch Hpos.
  pose proof (init_real _ _ _ _ Hinit) as (_ & _ & _ & _ & Hmax & _).
  split_and!.
  - rewrite (forward_velocity_penalty_saturating _ _ _ _ _ Hinit), Hmax.
    reals. replace (3 / 10 - 3 / 10) with 0 by lra.
    rewrite Rabs_R0, saturating_at_0. lra.
  - done.
  - rewrite (lateral_velocity_penalty_saturating _ _ _ _ _ Hinit).
    rewrite Rabs_R0, saturating_at_0. lra.
  - intros w'. rewrite (lateral_velocity_penalty_saturating _ _ _ _ _ Hinit).
    replace 0 with (1 + -1) by lra.
    apply saturating_below; [lra..|]. apply Rabs_pos.
  - by eapply flat_back_reward_level.
  - intros x. by eapply flat_back_reward_nonpos.
  - destruct (compute_reward_and_end_single self old row) as (r & e & Htr & ->).
    { apply lookup_lt_Some in Hw. lia. }
    rewrite (cruising_transition _ _ _ _ _ Hinit Hv Hw Hroll Hpitch Hpos) in Htr.
    by simplify_eq.
Qed.

End Reals.

Lemma real_demo_init :
  init [9%nat] [12%nat] [1%R; 0%R] = Some RealDemo.self.
Proof. reflexivity. Qed.

Lemma real_demo_cruising :
  compute_reward_and_end RealDemo.self (np.reshape_row RealDemo.cruising)
                         (np.reshape_row RealDemo.cruising)
  = Some ([0%R], [false]).
Proof.
  destruct (compute_reward_and_end_single RealDemo.self RealDemo.cruising
              RealDemo.cruising) as (r & e & Htr & ->).
  { simpl. lia. }
  rewrite (cruising_transition _ _ _ _ _ real_demo_init) in Htr;
    try reflexivity.
  - by simplify_eq.
  - simpl. by repeat constructor.
Qed.

(** C3, run. *)
Lemma forward_velocity_term_witness :
  init [9%nat] [12%nat] [1%R; 0%R] = Some RealDemo.self ∧
  forward_velocity_penalty RealDemo.self (3 / 10)%R = 1%R ∧
  (forward_velocity_penalty RealDemo.self 1 < forward_velocity_penalty RealDemo.self (1 / 2))%R.
Proof.
  assert (H1 : init [9%nat] [12%nat] [1%R; 0%R] = Some RealDemo.self)
    by reflexivity.
  split; [exact H1|].
  destruct (forward_velocity_term _ _ _ _ H1)
    as (_ & (Hmax & _ & Ht & _) & _ & Htop & Hdecr & _).
  split.
  - rewrite <- Hmax. apply Htop. by rewrite Ht.
  - apply Hdecr. rewrite Ht.
    rewrite (Rabs_left (3 / 10 - 1)), (Rabs_left (3 / 10 - 1 / 2)); lra.
Defined.

(** C4, run. *)
Lemma lateral_velocity_term_witness :
  init [9%nat] [12%nat] [1%R; 0%R] = Some RealDemo.self ∧
  lateral_velocity_penalty RealDemo.self 0%R = 0%R ∧
  (lateral_velocity_penalty RealDemo.self (-2) < lateral_velocity_penalty RealDemo.self 1)%R.
Proof.
  assert (H1 : init [9%nat] [12%nat] [1%R; 0%R] = Some RealDemo.self)
    by reflexivity.
  split; [exact H1|].
  destruct (lateral_velocity_term _ _ _ _ H1)
    as (_ & _ & Hzero & _ & _ & Hdecr & _).
  split; [exact Hzero|].
  apply Hdecr. rewrite (Rabs_right 1), (Rabs_left (-2)); lra.
Defined.

(** C2, at the cruising observation (forward velocity 0.3, no lateral
    velocity, level back, position at the origin).  The reward returned
    is 0 and not twice vmax plus the (zero) lateral and flatness
    contributions, over the reals as on binary64 numbers: the loop adds
    the flatness reward and the flatness reward times the base reward,
    but never the base reward itself, of which the comments in the
    source say that the flatness term increases or decreases it. *)
Lemma cruising_reward_not_twice_vmax :
  compute_reward_and_end RealDemo.self (np.reshape_row RealDemo.cruising)
                         (np.reshape_row RealDemo.cruising)
  ≠ Some ([2 * vmax RealDemo.self
           + 2 * lateral_velocity_penalty RealDemo.self 0
           + (flat_back_reward RealDemo.self 0
              + flat_back_reward RealDemo.self 0)]%R, [false]) ∧
  compute_reward_and_end Demo.self (np.reshape_row Demo.cruising)
                         (np.reshape_row Demo.cruising)
  = Some ([f64 0], [false]) ∧
  PrimFloat.eqb (f64 0) (f64 2 * vmax Demo.self)%np = false.
Proof.
  split; [|split; vm_compute; reflexivity].
  rewrite real_demo_cruising.
  pose proof (init_real _ _ _ _ real_demo_init) as (_ & _ & _ & _ & Hmax & _).
  rewrite (lateral_velocity_penalty_saturating _ _ _ _ _ real_demo_init).
  rewrite (flat_back_reward_level _ _ _ _ real_demo_init).
  rewrite Hmax, Rabs_R0, saturating_at_0.
  intros Heq. injection Heq as Heq. lra.
Qed.

(** The cruising robot, run. *)
Lemma cruising_reward_witness :
  init [9%nat] [12%nat] [1%R; 0%R] = Some RealDemo.self ∧
  RealDemo.cruising !! 7%nat = Some (np.lit 0.3) ∧
  RealDemo.cruising !! 8%nat = Some 0%R ∧
  RealDemo.cruising !! 5%nat = Some 0%R ∧
  RealDemo.cruising !! 6%nat = Some 0%R ∧
  Forall (λ x, x = 0%R) (take (length [1%R; 0%R]) RealDemo.cruising) ∧
  compute_reward_and_end RealDemo.self (np.reshape_row RealDemo.cruising)
                         (np.reshape_row RealDemo.cruising)
  = Some ([0%R], [false]).
Proof.
  assert (H1 : init [9%nat] [12%nat] [1%R; 0%R] = Some RealDemo.self)
    by reflexivity.
  assert (H6 : Forall (λ x, x = 0%R)
                      (take (length [1%R; 0%R]) RealDemo.cruising))
    by (simpl; repeat constructor).
  split_and!; [exact H1 | reflexivity.. | exact H6 |].
  exact (proj2 (proj2 (proj2 (proj2 (proj2 (proj2
           (cruising_reward _ _ _ _ RealDemo.cruising RealDemo.cruising
              H1 eq_refl eq_refl eq_refl eq_refl H6))))))).
Defined.

(** * Further properties *)

(** ** Batches: when they fail, what they return *)

Section BatchBehaviour.
Context {T : Type} {NA : np.Arith T} {CS : CoppeliaSocket T}.
Local Open Scope np_scope.

Lemma compute_reward_and_end_needs (self : Environment)
    (obs next_obs : np.ndarray T) :
  is_Some (compute_reward_and_end self obs next_obs) →
  9 ≤ np.ncols next_obs ∧ np.shape0 obs ≤ np.shape0 next_obs.
Proof.
  intros [[reward end_] Hrun]. split.
  - unfold compute_reward_and_end in Hrun.
    destruct (np.column 7 next_obs); simpl in Hrun; [|done].
    unfold np.column in Hrun. case_decide; [lia|done].
  - destruct (compute_reward_and_end_Some _ _ _ _ _ Hrun) as (_ & _ & Hrows).
    destruct (np.shape0 obs) as [|n] eqn:Hn; [lia|].
    destruct (Hrows n ltac:(lia)) as (row & _ & _ & Hrow & _).
    apply lookup_lt_Some in Hrow. unfold np.shape0. lia.
Qed.

(** X1.  On a rectangular array of next observations the computation
    returns exactly when the array has the nine columns that are read
    and at least as many rows as there are current observations;
    otherwise an index is out of bounds. *)
Theorem compute_reward_and_end_returns_iff (self : Environment)
    (obs next_obs : np.ndarray T) :
  np.rectangular next_obs →
  is_Some (compute_reward_and_end self obs next_obs)
  ↔ 9 ≤ np.ncols next_obs ∧ np.shape0 obs ≤ np.shape0 next_obs.
Proof.
  intros Hrect. split.
  - apply compute_reward_and_end_needs.
  - intros [Hw Hn]. by apply compute_reward_and_end_total.
Qed.

(** X2.  A batch returns one reward and one flag per current
    observation, and the entries of row [i] are what the computation
    returns for that row alone, whatever the current observation: rows
    do not influence each other. *)
Theorem batch_is_row_by_row (self : Environment) (obs next_obs : np.ndarray T)
    (reward : list T) (end_ : list bool) :
  compute_reward_and_end self obs next_obs = Some (reward, end_) →
  length reward = np.shape0 obs ∧ length end_ = np.shape0 obs ∧
  ∀ i row old,
    i < np.shape0 obs → np.rows next_obs !! i = Some row →
    ∃ r e,
      compute_reward_and_end self (np.reshape_row old) (np.reshape_row row)
      = Some ([r], [e]) ∧
      reward !! i = Some r ∧ end_ !! i = Some e.
Proof.
  intros Hrun.
  destruct (compute_reward_and_end_Some _ _ _ _ _ Hrun) as (Hlr & Hle & Hrows).
  split_and!; [done..|]. intros i row old Hi Hrow.
  destruct (Hrows i Hi) as (row' & r & e & Hrow' & Htr & Hr & He).
  simplify_eq.
  destruct (compute_reward_and_end_single self old row) as (r' & e' & Htr' & Hone).
  { eapply transition_length. eauto. }
  exists r', e'. split; [done|]. split; congruence.
Qed.

(** What [compute_reward] returns, entry by entry. *)
Lemma compute_reward_lookup (self : Environment) (obs : np.ndarray T)
    (rewards : list T) (i : nat) :
  compute_reward self obs = Some rewards →
  length rewards = (np.shape0 obs - 1)%nat ∧
  ((i < np.shape0 obs - 1)%nat →
   ∃ row r e, np.rows obs !! S i = Some row ∧
              transition self row (np.lit 0) = Some (r, e) ∧
              rewards !! i = Some r).
Proof.
  unfold compute_reward. intros Hrun.
  destruct (compute_reward_and_end self _ _) as [[reward end_]|] eqn:Hce;
    simplify_eq/=.
  destruct (compute_reward_and_end_Some _ _ _ _ _ Hce) as (Hlr & _ & Hrows).
  assert (Hlast : np.shape0 (np.drop_last obs) = (np.shape0 obs - 1)%nat).
  { unfold np.shape0. simpl. rewrite length_take. lia. }
  rewrite Hlast in Hlr, Hrows. split; [done|]. intros Hi.
  destruct (Hrows i Hi) as (row & r & e & Hrow & Htr & Hr & _).
  simpl in Hrow. rewrite lookup_drop in Hrow.
  exists row, r, e. done.
Qed.

Lemma compute_reward_is_Some (self : Environment) (obs : np.ndarray T) :
  np.rectangular obs → 9 ≤ np.ncols obs → is_Some (compute_reward self obs).
Proof.
  intros Hrect Hw. unfold compute_reward.
  destruct (compute_reward_and_end_total self (np.drop_last obs)
              (np.drop_first obs)) as [[reward end_] ->]; [| |  |by eauto].
  - unfold np.rectangular in *. simpl. by apply Forall_drop.
  - done.
  - unfold np.shape0. simpl. rewrite length_take, length_drop. lia.
Qed.

(** X3.  On a rectangular trajectory [compute_reward] returns exactly
    when there are nine columns, also for a trajectory of one
    observation or of none, and it returns one reward less than there
    are observations (none for the empty trajectory). *)
Theorem compute_reward_returns_iff (self : Environment) (obs : np.ndarray T) :
  np.rectangular obs →
  (is_Some (compute_reward self obs) ↔ 9 ≤ np.ncols obs) ∧
  (∀ rewards, compute_reward self obs = Some rewards →
              length rewards = (np.shape0 obs - 1)%nat).
Proof.
  intros Hrect. split; [split|].
  - unfold compute_reward. intros [rewards Hrun].
    destruct (compute_reward_and_end self _ _) as [out|] eqn:Hce;
      simplify_eq/=.
    by destruct (compute_reward_and_end_needs self _ _ (mk_is_Some _ _ Hce)).
  - by apply compute_reward_is_Some.
  - intros rewards Hrun.
    by destruct (compute_reward_lookup _ _ _ 0 Hrun).
Qed.

(** X4.  The rewards of the first [k] observations of a trajectory are
    the first [k - 1] rewards of the whole trajectory: recomputing a
    longer recording never changes the rewards already computed. *)
Theorem compute_reward_prefix (self : Environment) (obs : np.ndarray T)
    (rewards : list T) (k : nat) :
  np.rectangular obs →
  compute_reward self obs = Some rewards →
  compute_reward self (first_rows k obs) = Some (take (k - 1)%nat rewards).
Proof.
  intros Hrect Hrun.
  assert (Hw : 9 ≤ np.ncols obs).
  { apply (compute_reward_returns_iff self obs Hrect). eauto. }
  destruct (compute_reward_is_Some self (first_rows k obs)) as [rewards' Hrun'].
  { unfold np.rectangular, first_rows in *. simpl. by apply Forall_take. }
  { done. }
  rewrite Hrun'. f_equal.
  pose proof (compute_reward_lookup _ _ _ 0 Hrun) as [Hlen _].
  pose proof (compute_reward_lookup _ _ _ 0 Hrun') as [Hlen' _].
  assert (Hk : np.shape0 (first_rows k obs) = k `min` np.shape0 obs).
  { unfold np.shape0, first_rows. simpl. by rewrite length_take. }
  rewrite Hk in Hlen'.
  apply list_eq. intros i.
  destruct (decide (i < k `min` np.shape0 obs - 1)%nat) as [Hi|Hi].
  - destruct (compute_reward_lookup _ _ _ i Hrun') as [_ Hi'].
    destruct (Hi' ltac:(lia)) as (row & r & e & Hrow & Htr & ->).
    destruct (compute_reward_lookup _ _ _ i Hrun) as [_ Hi''].
    destruct (Hi'' ltac:(lia)) as (row' & r' & e' & Hrow' & Htr' & Hr').
    rewrite lookup_take_lt by lia. rewrite Hr'.
    unfold first_rows in Hrow. simpl in Hrow.
    rewrite lookup_take_lt in Hrow by lia. congruence.
  - rewrite (proj2 (lookup_ge_None _ _)) by lia.
    symmetry. apply lookup_ge_None. rewrite length_take. lia.
Qed.

End BatchBehaviour.

(** X1, run: the three transitions of the trajectory return; four current
    observations against three next ones do not. *)
Lemma compute_reward_and_end_returns_iff_witness :
  np.rectangular (np.drop_first Demo.trajectory) ∧
  (is_Some (compute_reward_and_end Demo.self Demo.trajectory
                                   (np.drop_first Demo.trajectory))
   ↔ 9 ≤ np.ncols (np.drop_first Demo.trajectory)
     ∧ np.shape0 Demo.trajectory ≤ np.shape0 (np.drop_first Demo.trajectory)).
Proof.
  assert (H1 : np.rectangular (np.drop_first Demo.trajectory))
    by (unfold np.rectangular; simpl; repeat constructor).
  split; [exact H1|].
  exact (compute_reward_and_end_returns_iff Demo.self Demo.trajectory
           (np.drop_first Demo.trajectory) H1).
Defined.

(** X2, run. *)
Lemma batch_is_row_by_row_witness :
  compute_reward_and_end Demo.self (np.drop_last Demo.trajectory)
                         (np.drop_first Demo.trajectory)
  = Some (Demo.outcome.1, Demo.outcome.2) ∧
  length Demo.outcome.1 = 3 ∧ length Demo.outcome.2 = 3.
Proof.
  assert (H1 : compute_reward_and_end Demo.self (np.drop_last Demo.trajectory)
                 (np.drop_first Demo.trajectory)
               = Some (Demo.outcome.1, Demo.outcome.2))
    by (vm_compute; reflexivity).
  split; [exact H1|].
  destruct (batch_is_row_by_row _ _ _ _ _ H1) as (Hr & He & _).
  split; [exact Hr | exact He].
Defined.

(** X3, run. *)
Lemma compute_reward_returns_iff_witness :
  np.rectangular Demo.trajectory ∧
  (is_Some (compute_reward Demo.self Demo.trajectory)
   ↔ 9 ≤ np.ncols Demo.trajectory).
Proof.
  assert (H1 : np.rectangular Demo.trajectory)
    by (unfold np.rectangular; simpl; repeat constructor).
  split; [exact H1|].
  exact (proj1 (compute_reward_returns_iff Demo.self Demo.trajectory H1)).
Defined.

(** X4, run: the first three observations of the trajectory. *)
Lemma compute_reward_prefix_witness :
  np.rectangular Demo.trajectory ∧
  compute_reward Demo.self Demo.trajectory = Some Demo.outcome.1 ∧
  compute_reward Demo.self (first_rows 3 Demo.trajectory)
  = Some (take 2 Demo.outcome.1).
Proof.
  assert (H1 : np.rectangular Demo.trajectory)
    by (unfold np.rectangular; simpl; repeat constructor).
  assert (H2 : compute_reward Demo.self Demo.trajectory = Some Demo.outcome.1)
    by (vm_compute; reflexivity).
  split_and!; [exact H1 | exact H2 |].
  exact (compute_reward_prefix Demo.self Demo.trajectory _ 3 H1 H2).
Defined.

(** ** Episodes: steps, resets and what they keep *)

Section EpisodeBehaviour.
Context {T : Type} {NA : np.Arith T} {CS : CoppeliaSocket T}.
Local Open Scope np_scope.

Lemma compute_reward_and_end_same_configuration (e1 e2 : Environment)
    (obs next_obs : np.ndarray T) :
  same_configuration e1 e2 →
  compute_reward_and_end e1 obs next_obs
  = compute_reward_and_end e2 obs next_obs.
Proof.
  destruct e1, e2. unfold same_configuration. simpl.
  intros (? & ? & ? & ? & ? & ? & ? & ? & ? & ? & ? & ? & ? & ? & ? & ? & ?).
  simplify_eq. reflexivity.
Qed.

Lemma set_episode_same_configuration (self : Environment) (st : option Z)
    (sh : list nat) (o : list T) (c : socket) :
  same_configuration self (set_episode self st sh o c).
Proof. unfold same_configuration. simpl. done. Qed.

(** X5.  [act] returns exactly when the observation the simulator
    answers with has nine entries or more and is as long as the last
    dimension of the array [__obs]; otherwise it raises (an index out of
    bounds in the reward, or a shape mismatch in the assignment to
    [__obs]). *)
Theorem act_returns_iff (self : Environment) (action : list T) :
  is_Some (act self action)
  ↔ 9 ≤ length (socket_act (coppelia self) action).2
    ∧ last (obs_shape self)
      = Some (length (socket_act (coppelia self) action).2).
Proof.
  split.
  - intros [[self' [[next_obs reward] end_]] Hact].
    destruct (act_Some _ _ _ _ _ _ Hact) as (c & -> & _ & Hw & Hlast & _).
    done.
  - intros [Hw Hlast]. by apply act_is_Some.
Qed.

(** X6.  The reward a step returns is the reward [compute_reward] finds
    for that transition in any recorded trajectory whose next row is the
    observation of the step: a single reward and a single flag, equal to
    the offline ones. *)
Theorem act_agrees_with_compute_reward
    (self self' : Environment) (action next_obs reward : list T)
    (end_ : list bool) (trajectory : np.ndarray T) (i : nat) :
  act self action = Some (self', (next_obs, reward, end_)) →
  np.rectangular trajectory →
  np.rows trajectory !! S i = Some next_obs →
  ∃ rewards r e,
    compute_reward self trajectory = Some rewards ∧
    rewards !! i = Some r ∧ reward = [r] ∧ end_ = [e].
Proof.
  intros Hact Hrect Hrow.
  destruct (act_Some _ _ _ _ _ _ Hact) as (c & _ & Hce & Hw & _).
  destruct (compute_reward_and_end_single self (obs self) next_obs Hw)
    as (r & e & Htr & Hone). rewrite Hone in Hce. simplify_eq.
  destruct (compute_reward_is_Some self trajectory Hrect) as [rewards Hrun].
  { unfold np.rectangular in Hrect. rewrite Forall_lookup in Hrect.
    by rewrite <- (Hrect _ _ Hrow). }
  exists rewards, r, e. split_and!; try done.
  destruct (compute_reward_lookup _ _ _ i Hrun) as [_ Hi].
  destruct Hi as (row & r' & e' & Hrow' & Htr' & Hr').
  { apply lookup_lt_Some in Hrow. unfold np.shape0. lia. }
  congruence.
Qed.

(** X7.  Steps and resets keep the configuration: [act], [reset] and
    [set_pos] change nothing but the last observation, the socket and,
    for [reset] only, the step counter.  [act] keeps the step counter and
    the shape of the array [__obs], [set_pos] keeps the step counter, and
    after each of them the environment holds the same destination and
    computes the same rewards and flags and the same [max_ret] as
    before. *)
Theorem episode_keeps_configuration (self : Environment) :
  (∀ action self' out,
     act self action = Some (self', out) →
     same_configuration self self' ∧ step self' = step self ∧
     obs_shape self' = obs_shape self) ∧
  (∀ u, same_configuration self (reset self u).1 ∧
        step (reset self u).1 = Some 0%Z) ∧
  (∀ pos, same_configuration self (set_pos self pos).1 ∧
          step (set_pos self pos).1 = step self) ∧
  (∀ self', same_configuration self self' →
     dest_pos self' = dest_pos self ∧
     (∀ obs next_obs, compute_reward_and_end self' obs next_obs
                      = compute_reward_and_end self obs next_obs) ∧
     (∀ obs, compute_reward self' obs = compute_reward self obs) ∧
     (∀ o, max_ret self' o = max_ret self o)).
Proof.
  split_and!.
  - intros action self' [[next_obs reward] end_] Hact.
    destruct (act_Some _ _ _ _ _ _ Hact) as (c & _ & _ & _ & _ & ->).
    split_and!; [apply set_episode_same_configuration|done..].
  - intros u. unfold reset.
    destruct (socket_reset (coppelia self) _) as [c o].
    split; [apply set_episode_same_configuration|done].
  - intros pos. unfold set_pos.
    destruct (socket_reset (coppelia self) pos) as [c o].
    split; [apply set_episode_same_configuration|done].
  - intros self' Hsame. split_and!.
    + by destruct Hsame as (_ & _ & _ & <- & _).
    + intros. symmetry. by apply compute_reward_and_end_same_configuration.
    + intros. unfold compute_reward.
      by rewrite (compute_reward_and_end_same_configuration self self').
    + intros. unfold max_ret.
      by destruct Hsame as (_ & _ & _ & _ & _ & <- & _).
Qed.


End EpisodeBehaviour.

(** Before any reset, [__obs] has the shape [(1,) + obs_sp_shape].  With
    [obs_sp_shape = (9, 1)] an observation of nine entries does not fit
    the last dimension and the first step raises. *)
Example first_step_column_shape :
  obs_shape <$> init (T := float) (CS := echo_socket)
                     [9%nat; 1%nat] [12%nat] (f64 <$> [1; 0]%Q)
  = Some [1%nat; 9%nat; 1%nat] ∧
  (e ← init (T := float) (CS := echo_socket)
            [9%nat; 1%nat] [12%nat] (f64 <$> [1; 0]%Q);
   act e Demo.tumbling) = None.
Proof. split; vm_compute; reflexivity. Qed.

(** With [obs_sp_shape = (9, 9)] it fits, and is stored nine times. *)
Example first_step_square_shape :
  (e ← init (T := float) (CS := echo_socket)
            [9%nat; 9%nat] [12%nat] (f64 <$> [1; 0]%Q);
   '(e', _) ← act e Demo.tumbling;
   Some (obs_shape e', obs e'))
  = Some ([1%nat; 9%nat; 9%nat], mjoin (replicate 9 Demo.tumbling)).
Proof. vm_compute. reflexivity. Qed.

(** X6, run: the step of the episode, found again in the trajectory. *)
Lemma act_agrees_with_compute_reward_witness :
  act Episode.started Demo.tumbling
  = Some (Episode.stepped.1,
          (Episode.stepped.2.1.1, Episode.stepped.2.1.2, Episode.stepped.2.2)) ∧
  np.rectangular Demo.trajectory ∧
  np.rows Demo.trajectory !! 1%nat = Some Episode.stepped.2.1.1 ∧
  ∃ rewards r e,
    compute_reward Episode.started Demo.trajectory = Some rewards ∧
    rewards !! 0%nat = Some r ∧
    Episode.stepped.2.1.2 = [r] ∧ Episode.stepped.2.2 = [e].
Proof.
  assert (H1 : act Episode.started Demo.tumbling
               = Some (Episode.stepped.1,
                       (Episode.stepped.2.1.1, Episode.stepped.2.1.2,
                        Episode.stepped.2.2)))
    by (vm_compute; reflexivity).
  assert (H2 : np.rectangular Demo.trajectory)
    by (unfold np.rectangular; simpl; repeat constructor).
  assert (H3 : np.rows Demo.trajectory !! 1%nat = Some Episode.stepped.2.1.1)
    by (vm_compute; reflexivity).
  split_and!; [exact H1 | exact H2 | exact H3 |].
  exact (act_agrees_with_compute_reward _ _ _ _ _ _ _ 0 H1 H2 H3).
Defined.

(** ** The reward over the reals: its range and its symmetries *)

Section RealBehaviour.
Context {CS : CoppeliaSocket R}.
Local Open Scope R_scope.

(** X9.  The flatness reward of a normalised angle x is
    -vmin_back / (curvature_back * (|x| * pi) + 1) + vmin_back with
    vmin_back = -0.8 and curvature_back = 2: it is 0 for a level back and
    negative otherwise, the same for x and -x, strictly decreasing in
    |x|, and always above vmin_back. *)
Theorem flat_back_term (o a : list nat) (d : list R) (self : Environment) :
  init o a d = Some self →
  let h := flat_back_reward self in
  (∀ x, h x = - vmin_back self / (curvature_back self * (Rabs x * PI) + 1)
              + vmin_back self) ∧
  (vmin_back self = - (4 / 5) ∧ curvature_back self = 2) ∧
  h 0 = 0 ∧
  (∀ x, h x <= 0) ∧
  (∀ x, h x = 0 ↔ x = 0) ∧
  (∀ x, h (- x) = h x) ∧
  (∀ x1 x2, Rabs x1 < Rabs x2 → h x2 < h x1) ∧
  (∀ x, vmin_back self < h x).
Proof.
  intros Hinit h. subst h.
  pose proof (init_real _ _ _ _ Hinit)
    as (_ & _ & _ & _ & _ & _ & _ & _ & _ & Hmin & Hc).
  assert (Hh := λ x, flat_back_reward_saturating o a d self x Hinit).
  assert (Hpi := PI_RGT_0).
  assert (Hang : ∀ x, 0 <= Rabs x * PI).
  { intros x. apply Rmult_le_pos; [apply Rabs_pos|lra]. }
  split_and!.
  - intros x. unfold flat_back_reward. reals. f_equal. f_equal. f_equal. lra.
  - done.
  - done.
  - by eapply flat_back_reward_level.
  - intros x. by eapply flat_back_reward_nonpos.
  - intros x. rewrite Hh. replace 0 with (4 / 5 + - (4 / 5)) at 1 by lra.
    rewrite saturating_top by (lra || apply Hang).
    split.
    + intros H0. destruct (Req_dec x 0) as [|Hne]; [done|].
      apply Rabs_pos_lt in Hne. nra.
    + intros ->. rewrite Rabs_R0. lra.
  - intros x. by rewrite !Hh, Rabs_Ropp.
  - intros x1 x2 Hlt. rewrite !Hh.
    apply saturating_decreasing; [lra..|apply Hang|].
    apply Rmult_lt_compat_r; lra.
  - intros x. rewrite Hmin, Hh. apply saturating_above; [lra..|apply Hang].
Qed.

(** The two passes of the flatness loop in one formula. *)
Lemma shaped_reward_closed_form (self : Environment) (v w roll pitch : R) :
  let base :=
    forward_velocity_penalty self v + lateral_velocity_penalty self w in
  shaped_reward self v w roll pitch 0
  = (flat_back_reward self roll + flat_back_reward self pitch)
    * (1 + Rabs base / 2).
Proof.
  intros base. subst base. unfold shaped_reward, flat_back_update. cbv zeta.
  reals.
  set (b := forward_velocity_penalty self v + lateral_velocity_penalty self w).
  destruct (Rltb b (0 / 1)) eqn:Hsign.
  - apply Rltb_true in Hsign. rewrite Rabs_left by lra. lra.
  - apply Rltb_false in Hsign. rewrite Rabs_right by lra. lra.
Qed.

Lemma shaped_reward_lit_0 (self : Environment) (v w roll pitch : R) :
  shaped_reward self v w roll pitch (np.lit 0)
  = shaped_reward self v w roll pitch 0.
Proof. f_equal. reals. lra. Qed.

(** X10.  The reward of a row is the sum of its two flatness rewards,
    scaled by 1 + |base reward| / 2, minus 2 when the row has flipped:
    the base reward (forward term plus lateral term) only enters through
    its absolute value, as a factor of a quantity that is never
    positive. *)
Theorem reward_closed_form
    (o a : list nat) (d : list R) (self : Environment)
    (obs next_obs : np.ndarray R) (reward : list R) (end_ : list bool)
    (i : nat) (row : list R) :
  init o a d = Some self →
  compute_reward_and_end self obs next_obs = Some (reward, end_) →
  (i < np.shape0 obs)%nat →
  np.rows next_obs !! i = Some row →
  ∃ v w roll pitch,
    row !! 7%nat = Some v ∧ row !! 8%nat = Some w ∧
    row !! 5%nat = Some roll ∧ row !! 6%nat = Some pitch ∧
    let base :=
      forward_velocity_penalty self v + lateral_velocity_penalty self w in
    let shaped :=
      (flat_back_reward self roll + flat_back_reward self pitch)
      * (1 + Rabs base / 2) in
    reward !! i
    = Some (if flipped roll pitch then shaped - 2 else shaped).
Proof.
  intros Hinit Hrun Hi Hrow.
  pose proof (init_real _ _ _ _ Hinit) as (_ & _ & Hpen & _).
  destruct (compute_reward_and_end_row _ _ _ _ _ _ _ Hrun Hi Hrow)
    as (v & w & roll & pitch & Hv & Hw & Hroll & Hpitch & _ & Hr).
  exists v, w, roll, pitch. split_and!; [done..|]. cbv zeta.
  rewrite Hr, shaped_reward_lit_0, shaped_reward_closed_form, Hpen.
  change (@np.add R real_arith) with Rplus.
  destruct (flipped roll pitch); f_equal; lra.
Qed.

Lemma base_reward_range (o a : list nat) (d : list R) (self : Environment)
    (v w : R) :
  init o a d = Some self →
  Rabs (forward_velocity_penalty self v + lateral_velocity_penalty self w) < 3.
Proof.
  intros Hinit.
  rewrite (forward_velocity_penalty_saturating _ _ _ _ _ Hinit).
  rewrite (lateral_velocity_penalty_saturating _ _ _ _ _ Hinit).
  pose proof (saturating_above 3 (10 / 3) (-2) ltac:(lra) ltac:(lra)
                _ (Rabs_pos (3 / 10 - v))).
  pose proof (saturating_below 3 (10 / 3) (-2) ltac:(lra) ltac:(lra)
                _ (Rabs_pos (3 / 10 - v))).
  pose proof (saturating_above 1 3 (-1) ltac:(lra) ltac:(lra) _ (Rabs_pos w)).
  pose proof (saturating_below 1 3 (-1) ltac:(lra) ltac:(lra) _ (Rabs_pos w)).
  apply Rabs_def1; lra.
Qed.

Lemma flat_back_reward_range (o a : list nat) (d : list R) (self : Environment)
    (x : R) :
  init o a d = Some self →
  - (4 / 5) < flat_back_reward self x <= 0 ∧
  (x ≠ 0 → flat_back_reward self x < 0).
Proof.
  intros Hinit.
  rewrite (flat_back_reward_saturating _ _ _ _ _ Hinit).
  assert (Hpi := PI_RGT_0).
  assert (Hang : 0 <= Rabs x * PI).
  { apply Rmult_le_pos; [apply Rabs_pos|lra]. }
  pose proof (saturating_above (4 / 5) 2 (- (4 / 5)) ltac:(lra) ltac:(lra)
                _ Hang).
  pose proof (saturating_below (4 / 5) 2 (- (4 / 5)) ltac:(lra) ltac:(lra)
                _ Hang).
  split; [lra|]. intros Hne.
  assert (saturating (4 / 5) 2 (- (4 / 5)) (Rabs x * PI)
          < saturating (4 / 5) 2 (- (4 / 5)) 0).
  { apply saturating_decreasing; [lra..|].
    apply Rabs_pos_lt in Hne. nra. }
  rewrite saturating_at_0 in *. lra.
Qed.

Lemma flipped_real (roll pitch : R) :
  flipped roll pitch = true
  ↔ Rabs roll >= 278 / 1000 ∨ Rabs pitch >= 278 / 1000.
Proof.
  rewrite flipped_orb. reals. rewrite <- !Rgeb_true.
  destruct (Rgeb (Rabs roll) _), (Rgeb (Rabs pitch) _); simpl;
    split; intros; auto;
    repeat match goal with H : _ ∨ _ |- _ => destruct H end; done.
Qed.

(** X11.  Every reward the computation returns lies in (-6, 0].  The
    reward of a row whose roll or pitch reaches 0.278 is below -2; the
    reward of any other row is above -4. *)
Theorem reward_range
    (o a : list nat) (d : list R) (self : Environment)
    (obs next_obs : np.ndarray R) (reward : list R) (end_ : list bool)
    (i : nat) (r : R) :
  init o a d = Some self →
  compute_reward_and_end self obs next_obs = Some (reward, end_) →
  reward !! i = Some r →
  -6 < r <= 0 ∧
  ∃ row roll pitch,
    np.rows next_obs !! i = Some row ∧
    row !! 5%nat = Some roll ∧ row !! 6%nat = Some pitch ∧
    (Rabs roll >= 278 / 1000 ∨ Rabs pitch >= 278 / 1000 → r < -2) ∧
    (Rabs roll < 278 / 1000 ∧ Rabs pitch < 278 / 1000 → -4 < r).
Proof.
  intros Hinit Hrun Hr.
  pose proof (init_real _ _ _ _ Hinit) as (_ & _ & Hpen & _).
  destruct (compute_reward_and_end_Some _ _ _ _ _ Hrun) as (Hlr & _ & Hrows).
  assert (Hi : (i < np.shape0 obs)%nat).
  { rewrite <- Hlr. by eapply lookup_lt_Some. }
  destruct (Hrows i Hi) as (row & r' & e & Hrow & _ & Hr' & _).
  destruct (compute_reward_and_end_row _ _ _ _ _ _ _ Hrun Hi Hrow)
    as (v & w & roll & pitch & Hv & Hw & Hroll & Hpitch & _ & Hri).
  rewrite Hr in Hri. apply (inj Some) in Hri. subst r.
  rewrite shaped_reward_lit_0, shaped_reward_closed_form, Hpen.
  change (@np.add R real_arith) with Rplus.
  pose proof (base_reward_range _ _ _ _ v w Hinit) as Hbase.
  pose proof (Rabs_pos (forward_velocity_penalty self v
                        + lateral_velocity_penalty self w)) as Hpos.
  destruct (flat_back_reward_range _ _ _ _ roll Hinit) as [Hf1 Hn1].
  destruct (flat_back_reward_range _ _ _ _ pitch Hinit) as [Hf2 Hn2].
  set (b := Rabs (forward_velocity_penalty self v
                  + lateral_velocity_penalty self w)) in *.
  set (f1 := flat_back_reward self roll) in *.
  set (f2 := flat_back_reward self pitch) in *.
  assert (Hlow : -4 < (f1 + f2) * (1 + b / 2)) by nra.
  assert (Hhigh : (f1 + f2) * (1 + b / 2) <= 0) by nra.
  destruct (flipped roll pitch) eqn:Hflip.
  - split; [lra|]. exists row, roll, pitch. split_and!; try done.
    + intros _. apply flipped_real in Hflip.
      assert (f1 + f2 < 0).
      { destruct Hflip as [Hbig|Hbig].
        - assert (roll ≠ 0) by (intros ->; rewrite Rabs_R0 in Hbig; lra).
          specialize (Hn1 ltac:(done)). lra.
        - assert (pitch ≠ 0) by (intros ->; rewrite Rabs_R0 in Hbig; lra).
          specialize (Hn2 ltac:(done)). lra. }
      nra.
    + intros [Hs1 Hs2].
      assert (flipped roll pitch = true) as Habs by done.
      apply flipped_real in Habs. lra.
  - split; [lra|]. exists row, roll, pitch. split_and!; try done.
    intros Hbig.
    assert (flipped roll pitch = true) as Habs by by apply flipped_real.
    congruence.
Qed.

(** X12.  On a level back (roll = pitch = 0) the reward is 0, whatever
    the forward and lateral velocities and the position. *)
Theorem level_back_reward
    (o a : list nat) (d : list R) (self : Environment)
    (obs next_obs : np.ndarray R) (reward : list R) (end_ : list bool)
    (i : nat) (row : list R) :
  init o a d = Some self →
  compute_reward_and_end self obs next_obs = Some (reward, end_) →
  (i < np.shape0 obs)%nat →
  np.rows next_obs !! i = Some row →
  row !! 5%nat = Some 0 → row !! 6%nat = Some 0 →
  reward !! i = Some 0.
Proof.
  intros Hinit Hrun Hi Hrow Hroll Hpitch.
  destruct (compute_reward_and_end_row _ _ _ _ _ _ _ Hrun Hi Hrow)
    as (v & w & roll & pitch & _ & _ & Hroll' & Hpitch' & _ & ->).
  simplify_eq.
  assert (Hflip : flipped 0 0 = false).
  { destruct (flipped 0 0) eqn:Hf; [|done].
    apply flipped_real in Hf. rewrite Rabs_R0 in Hf. lra. }
  rewrite Hflip, shaped_reward_lit_0, shaped_reward_closed_form.
  rewrite (flat_back_reward_level _ _ _ _ Hinit). f_equal. lra.
Qed.

(** *** Signs *)

Lemma lateral_velocity_penalty_abs (self : Environment) (w w' : R) :
  Rabs w = Rabs w' →
  lateral_velocity_penalty self w = lateral_velocity_penalty self w'.
Proof. intros Habs. unfold lateral_velocity_penalty. reals. by rewrite Habs. Qed.

Lemma flat_back_reward_abs (self : Environment) (x y : R) :
  Rabs x = Rabs y → flat_back_reward self x = flat_back_reward self y.
Proof. intros Habs. unfold flat_back_reward. reals. by rewrite Habs. Qed.

Lemma flipped_abs (roll pitch roll' pitch' : R) :
  Rabs roll = Rabs roll' → Rabs pitch = Rabs pitch' →
  flipped roll pitch = flipped roll' pitch'.
Proof. intros H1 H2. unfold flipped. reals. by rewrite H1, H2. Qed.

Lemma square_abs (x y : R) : Rabs x = Rabs y → np.square x = np.square y.
Proof.
  intros Habs. unfold np.square. reals.
  change (x * x) with (Rsqr x). change (y * y) with (Rsqr y).
  by rewrite (Rsqr_abs x), (Rsqr_abs y), Habs.
Qed.

Lemma position_norm_abs (p : nat) (row row' : list R) :
  Forall2 (λ x y, Rabs x = Rabs y) (take p row) (take p row') →
  position_norm p row = position_norm p row'.
Proof.
  unfold position_norm. generalize (take p row) (take p row').
  intros l l' Hpos. do 2 f_equal.
  induction Hpos as [|x y l l' Hxy _ IH]; csimpl; [done|].
  f_equal; [by apply square_abs | exact IH].
Qed.

(** X13.  The outcome of a transition only depends on the roll, the
    pitch, the lateral velocity and the position components through their
    absolute values: an observation and its mirror image get the same
    reward and the same flag. *)
Theorem mirror_symmetry (self : Environment) (old old' row row' : list R)
    (w w' roll roll' pitch pitch' : R) :
  row !! 7%nat = row' !! 7%nat →
  row !! 8%nat = Some w → row' !! 8%nat = Some w' → Rabs w = Rabs w' →
  row !! 5%nat = Some roll → row' !! 5%nat = Some roll' →
  Rabs roll = Rabs roll' →
  row !! 6%nat = Some pitch → row' !! 6%nat = Some pitch' →
  Rabs pitch = Rabs pitch' →
  Forall2 (λ x y, Rabs x = Rabs y)
          (take (pos_size self) row) (take (pos_size self) row') →
  compute_reward_and_end self (np.reshape_row old) (np.reshape_row row)
  = compute_reward_and_end self (np.reshape_row old') (np.reshape_row row').
Proof.
  intros Hv Hw Hw' Hwabs Hroll Hroll' Hrabs Hpitch Hpitch' Hpabs Hpos.
  destruct (compute_reward_and_end_single self old row) as (r & e & Htr & ->).
  { apply lookup_lt_Some in Hw. lia. }
  destruct (compute_reward_and_end_single self old' row')
    as (r' & e' & Htr' & ->).
  { apply lookup_lt_Some in Hw'. lia. }
  unfold transition in Htr, Htr'.
  rewrite <- Hv, Hw', Hroll', Hpitch' in Htr'.
  rewrite Hw, Hroll, Hpitch in Htr.
  destruct (row !! 7%nat) as [v|]; [|done].
  cbn [mbind option_bind] in Htr, Htr'. cbv zeta in Htr, Htr'.
  unfold shaped_reward, flat_back_update in Htr, Htr'. cbv zeta in Htr, Htr'.
  rewrite <- (lateral_velocity_penalty_abs self w w' Hwabs) in Htr'.
  rewrite <- (flat_back_reward_abs self roll roll' Hrabs) in Htr'.
  rewrite <- (flat_back_reward_abs self pitch pitch' Hpabs) in Htr'.
  rewrite <- (flipped_abs roll pitch roll' pitch' Hrabs Hpabs) in Htr'.
  rewrite <- (position_norm_abs _ _ _ Hpos) in Htr'.
  congruence.
Qed.

(** *** [max_ret] and the distance *)

Lemma sum_squares_from (acc : R) (l : list R) :
  acc <= foldl Rplus acc (np.square <$> l) ∧
  (foldl Rplus acc (np.square <$> l) = acc ↔ Forall (λ x, x = 0) l).
Proof.
  revert acc. induction l as [|x l IH]; intros acc; csimpl.
  - split; [lra|]. split; [by constructor|done].
  - destruct (IH (acc + np.square x)) as [Hle Hiff].
    assert (Hsq : 0 <= np.square x).
    { unfold np.square. reals. apply Rle_0_sqr. }
    assert (Hzero : np.square x = 0 → x = 0).
    { unfold np.square. reals. apply Rsqr_0_uniq. }
    assert (Hnull : np.square 0 = 0).
    { unfold np.square. reals. lra. }
    change (x * x) with (np.square x).
    split; [lra|]. split.
    + intros Heq. assert (Hx : np.square x = 0) by lra.
      constructor; [by apply Hzero|]. apply Hiff. lra.
    + intros Hall. inversion Hall as [|? ? -> Hl]; subst.
      apply Hiff in Hl. rewrite Hl, Hnull. lra.
Qed.

Lemma position_norm_nonneg (p : nat) (row : list R) :
  0 <= position_norm p row ∧
  (position_norm p row = 0 ↔ Forall (λ x, x = 0) (take p row)).
Proof.
  unfold position_norm, np.sum.
  cbn [np.sqrt np.add np.lit real_arith Qnum Qden].
  replace (0 / 1) with 0 by lra.
  destruct (sum_squares_from 0 (take p row)) as [Hle Hiff].
  split; [apply sqrt_pos|]. rewrite <- Hiff. split.
  - intros H0. by apply sqrt_eq_0 in H0.
  - intros ->. apply sqrt_0.
Qed.

(** X14.  [max_ret] returns a single number, which is never negative and
    is 0 exactly when the first P entries of the observation are all 0. *)
Theorem max_ret_nonnegative (self : Environment) (o : list R) :
  ∃ m, max_ret self o = [m] ∧ 0 <= m ∧
       (m = 0 ↔ Forall (λ x, x = 0) (take (pos_size self) o)).
Proof.
  exists (100 * position_norm (pos_size self) o).
  destruct (position_norm_nonneg (pos_size self) o) as [Hle Hiff].
  split_and!.
  - unfold max_ret, np.row_norms. simpl. f_equal. reals.
    fold (position_norm (pos_size self) o). lra.
  - lra.
  - rewrite <- Hiff. split; intros; lra.
Qed.

(** X15.  For a row that has not flipped, the end flag is set exactly
    when [max_ret] of that observation reaches 250: the episode ends at
    the distance where the maximum return is a hundred times the end
    condition. *)
Theorem end_flag_by_max_ret
    (o a : list nat) (d : list R) (self : Environment)
    (obs next_obs : np.ndarray R) (reward : list R) (end_ : list bool)
    (i : nat) (row : list R) (roll pitch : R) :
  init o a d = Some self →
  compute_reward_and_end self obs next_obs = Some (reward, end_) →
  (i < np.shape0 obs)%nat →
  np.rows next_obs !! i = Some row →
  row !! 5%nat = Some roll → row !! 6%nat = Some pitch →
  Rabs roll < 278 / 1000 → Rabs pitch < 278 / 1000 →
  end_ !! i = Some true ↔ ∃ m, max_ret self row = [m] ∧ m >= 250.
Proof.
  intros Hinit Hrun Hi Hrow Hroll Hpitch Hsmall1 Hsmall2.
  pose proof (init_real _ _ _ _ Hinit) as (HP & _).
  rewrite (end_flag_real _ _ _ _ _ _ _ _ _ _ _ _ Hinit Hrun Hi Hrow Hroll Hpitch).
  assert (Hm : max_ret self row = [100 * position_norm (length d) row]).
  { unfold max_ret, np.row_norms. simpl. rewrite HP. f_equal. reals.
    fold (position_norm (length d) row). lra. }
  rewrite Hm. unfold position_norm. reals. split.
  - intros [?|[?|Hfar]]; [lra..|]. eexists. split; [done|]. lra.
  - intros (m & Heq & Hbig). simplify_eq. right. right. lra.
Qed.


End RealBehaviour.

(** X9, run. *)
Lemma flat_back_term_witness :
  init [9%nat] [12%nat] [1%R; 0%R] = Some RealDemo.self ∧
  flat_back_reward RealDemo.self 0%R = 0%R ∧
  (flat_back_reward RealDemo.self (-1) < flat_back_reward RealDemo.self (1 / 2))%R.
Proof.
  assert (H1 : init [9%nat] [12%nat] [1%R; 0%R] = Some RealDemo.self)
    by reflexivity.
  split; [exact H1|].
  destruct (flat_back_term _ _ _ _ H1) as (_ & _ & Hzero & _ & _ & _ & Hdecr & _).
  split; [exact Hzero|].
  apply Hdecr. rewrite (Rabs_right (1 / 2)), (Rabs_left (-1)); lra.
Defined.

(** X11, run: the cruising robot. *)
Lemma reward_range_witness :
  init [9%nat] [12%nat] [1%R; 0%R] = Some RealDemo.self ∧
  compute_reward_and_end RealDemo.self (np.reshape_row RealDemo.cruising)
                         (np.reshape_row RealDemo.cruising)
  = Some ([0%R], [false]) ∧
  [0%R] !! 0%nat = Some 0%R ∧
  (-6 < 0 <= 0)%R.
Proof.
  assert (H1 : init [9%nat] [12%nat] [1%R; 0%R] = Some RealDemo.self)
    by reflexivity.
  assert (H2 := real_demo_cruising).
  assert (H3 : [0%R] !! 0%nat = Some 0%R) by reflexivity.
  split; [exact H1|]. split; [exact H2|]. split; [exact H3|].
  exact (proj1 (reward_range _ _ _ _ _ _ _ _ 0 0%R H1 H2 H3)).
Defined.

(** X12, run. *)
Lemma level_back_reward_witness :
  init [9%nat] [12%nat] [1%R; 0%R] = Some RealDemo.self ∧
  compute_reward_and_end RealDemo.self (np.reshape_row RealDemo.cruising)
                         (np.reshape_row RealDemo.cruising)
  = Some ([0%R], [false]) ∧
  0 < np.shape0 (np.reshape_row RealDemo.cruising) ∧
  np.rows (np.reshape_row RealDemo.cruising) !! 0%nat = Some RealDemo.cruising ∧
  RealDemo.cruising !! 5%nat = Some 0%R ∧
  RealDemo.cruising !! 6%nat = Some 0%R ∧
  [0%R] !! 0%nat = Some 0%R.
Proof.
  assert (H1 : init [9%nat] [12%nat] [1%R; 0%R] = Some RealDemo.self)
    by reflexivity.
  assert (H2 := real_demo_cruising).
  assert (H3 : 0 < np.shape0 (np.reshape_row RealDemo.cruising))
    by (unfold np.shape0; simpl; lia).
  split_and!; [exact H1 | exact H2 | exact H3 | reflexivity.. |].
  exact (level_back_reward _ _ _ _ _ _ _ _ 0 RealDemo.cruising
           H1 H2 H3 eq_refl eq_refl eq_refl).
Defined.

(** X13, run: the leaning robot and its mirror image. *)
Lemma mirror_symmetry_witness :
  Forall2 (λ x y, Rabs x = Rabs y)
          (take (pos_size RealDemo.self) RealRuns.leaning)
          (take (pos_size RealDemo.self) RealRuns.mirrored) ∧
  compute_reward_and_end RealDemo.self (np.reshape_row RealRuns.leaning)
                         (np.reshape_row RealRuns.leaning)
  = compute_reward_and_end RealDemo.self (np.reshape_row RealRuns.mirrored)
                           (np.reshape_row RealRuns.mirrored).
Proof.
  assert (Hopp : ∀ x : R, Rabs x = Rabs (- x))
    by (intros x; symmetry; apply Rabs_Ropp).
  assert (Hopp' : ∀ x : R, Rabs (- x) = Rabs x) by apply Rabs_Ropp.
  assert (H1 : Forall2 (λ x y, Rabs x = Rabs y)
                 (take (pos_size RealDemo.self) RealRuns.leaning)
                 (take (pos_size RealDemo.self) RealRuns.mirrored)).
  { simpl. repeat constructor; [apply (Hopp 1%R) | apply (Hopp' 2%R)]. }
  split; [exact H1|].
  exact (mirror_symmetry RealDemo.self RealRuns.leaning RealRuns.mirrored
           RealRuns.leaning RealRuns.mirrored
           _ _ _ _ _ _ eq_refl eq_refl eq_refl (Hopp (2 / 5)%R)
           eq_refl eq_refl (Hopp (1 / 10)%R)
           eq_refl eq_refl (Hopp' (1 / 5)%R) H1).
Defined.

(** X15, run. *)
Lemma end_flag_by_max_ret_witness :
  init [9%nat] [12%nat] [1%R; 0%R] = Some RealDemo.self ∧
  compute_reward_and_end RealDemo.self (np.reshape_row RealDemo.cruising)
                         (np.reshape_row RealDemo.cruising)
  = Some ([0%R], [false]) ∧
  (Rabs 0 < 278 / 1000)%R ∧
  ([false] !! 0%nat = Some true
   ↔ ∃ m, max_ret RealDemo.self RealDemo.cruising = [m] ∧ (m >= 250)%R).
Proof.
  assert (H1 : init [9%nat] [12%nat] [1%R; 0%R] = Some RealDemo.self)
    by reflexivity.
  assert (H2 := real_demo_cruising).
  assert (H3 : 0 < np.shape0 (np.reshape_row RealDemo.cruising))
    by (unfold np.shape0; simpl; lia).
  assert (H4 : (Rabs 0 < 278 / 1000)%R) by (rewrite Rabs_R0; lra).
  split_and!; [exact H1 | exact H2 | exact H4 |].
  exact (end_flag_by_max_ret _ _ _ _ _ _ _ _ 0 RealDemo.cruising 0%R 0%R
           H1 H2 H3 eq_refl eq_refl eq_refl H4 H4).
Defined.


(** ** Binary64: observations that are not numbers *)

Section NotANumber.
Context {CS : CoppeliaSocket float}.
Local Open Scope np_scope.

(** X17.  When the roll and the pitch of a next observation are NaN, the
    comparisons with 0.278 are false: the row is not treated as flipped,
    no flip penalty is added, and its end flag is decided by the
    distance alone. *)
Theorem nan_orientation_never_flips
    (self : Environment) (obs next_obs : np.ndarray float)
    (reward : list float) (end_ : list bool) (i : nat) (row : list float) :
  compute_reward_and_end self obs next_obs = Some (reward, end_) →
  i < np.shape0 obs →
  np.rows next_obs !! i = Some row →
  row !! 5%nat = Some PrimFloat.nan → row !! 6%nat = Some PrimFloat.nan →
  ∃ v w,
    row !! 7%nat = Some v ∧ row !! 8%nat = Some w ∧
    end_ !! i
    = Some (np.sqrt (np.sum (np.square <$> take (pos_size self) row))
            >=? end_cond self) ∧
    reward !! i
    = Some (shaped_reward self v w PrimFloat.nan PrimFloat.nan (np.lit 0)).
Proof.
  intros Hrun Hi Hrow Hroll Hpitch.
  destruct (compute_reward_and_end_row _ _ _ _ _ _ _ Hrun Hi Hrow)
    as (v & w & roll & pitch & Hv & Hw & Hroll' & Hpitch' & He & Hr).
  simplify_eq.
  assert (Hflip : flipped PrimFloat.nan PrimFloat.nan = false)
    by (vm_compute; reflexivity).
  rewrite Hflip in He, Hr. exists v, w. done.
Qed.

End NotANumber.

(** X17, run. *)
Lemma nan_orientation_never_flips_witness :
  compute_reward_and_end Demo.self (np.reshape_row Demo.cruising)
                         (np.reshape_row Blind.row)
  = Some (Blind.outcome.1, Blind.outcome.2) ∧
  0 < np.shape0 (np.reshape_row Demo.cruising) ∧
  np.rows (np.reshape_row Blind.row) !! 0%nat = Some Blind.row ∧
  Blind.row !! 5%nat = Some PrimFloat.nan ∧
  Blind.row !! 6%nat = Some PrimFloat.nan ∧
  Blind.outcome.2 = [false].
Proof.
  assert (H1 : compute_reward_and_end Demo.self (np.reshape_row Demo.cruising)
                 (np.reshape_row Blind.row)
               = Some (Blind.outcome.1, Blind.outcome.2))
    by (vm_compute; reflexivity).
  assert (H2 : 0 < np.shape0 (np.reshape_row Demo.cruising))
    by (vm_compute; lia).
  assert (H3 : np.rows (np.reshape_row Blind.row) !! 0%nat = Some Blind.row)
    by reflexivity.
  assert (H4 : Blind.row !! 5%nat = Some PrimFloat.nan) by reflexivity.
  assert (H5 : Blind.row !! 6%nat = Some PrimFloat.nan) by reflexivity.
  split_and!; [exact H1 | exact H2 | exact H3 | exact H4 | exact H5 |].
  destruct (nan_orientation_never_flips _ _ _ _ _ _ _ H1 H2 H3 H4 H5)
    as (v & w & _ & _ & He & _).
  vm_compute in He. vm_compute. congruence.
Defined.

(** X10, run. *)
Lemma reward_closed_form_witness :
  init [9%nat] [12%nat] [1%R; 0%R] = Some RealDemo.self ∧
  compute_reward_and_end RealDemo.self (np.reshape_row RealDemo.cruising)
                         (np.reshape_row RealDemo.cruising)
  = Some ([0%R], [false]) ∧
  ∃ v w roll pitch,
    RealDemo.cruising !! 7%nat = Some v ∧ RealDemo.cruising !! 8%nat = Some w ∧
    RealDemo.cruising !! 5%nat = Some roll ∧
    RealDemo.cruising !! 6%nat = Some pitch ∧
    [0%R] !! 0%nat
    = Some (if flipped roll pitch
            then ((flat_back_reward RealDemo.self roll
                   + flat_back_reward RealDemo.self pitch)
                  * (1 + Rabs (forward_velocity_penalty RealDemo.self v
                               + lateral_velocity_penalty RealDemo.self w) / 2)
                  - 2)%R
            else ((flat_back_reward RealDemo.self roll
                   + flat_back_reward RealDemo.self pitch)
                  * (1 + Rabs (forward_velocity_penalty RealDemo.self v
                               + lateral_velocity_penalty RealDemo.self w) / 2))%R).
Proof.
  assert (H1 : init [9%nat] [12%nat] [1%R; 0%R] = Some RealDemo.self)
    by reflexivity.
  assert (H2 := real_demo_cruising).
  assert (H3 : 0 < np.shape0 (np.reshape_row RealDemo.cruising))
    by (unfold np.shape0; simpl; lia).
  split; [exact H1|]. split; [exact H2|].
  exact (reward_closed_form _ _ _ _ _ _ _ _ 0 RealDemo.cruising
           H1 H2 H3 eq_refl).
Defined.
